(** * crunchyroll_beta.sync.api: the Crunchyroll client

    A shallow embedding of [src/crunchyroll_beta/sync/api.py] (class
    [Crunchyroll]) and the properties its specification states about the
    session lifecycle, the request dispatcher, the response normaliser and
    the HLS master-playlist parser.

    Python dictionaries are finite maps ([gmap]), whose equality is that of
    Python's [==] on dicts.  The client object, the default-argument
    dictionary of [_make_request], the caller's header dictionaries and the
    network are one explicit state, threaded through a state-and-exception
    monad: a raised exception keeps every mutation made before it. *)

From stdpp Require Import base option list strings gmap pretty.
From Stdlib Require Import ZArith Lia Ascii String.

Set Warnings "-register-all".
Set Default Proof Using "Type".

(** ** Decoded JSON values *)

(** What [r.json()] yields: [null] is Python's [None], an object is a
    [dict] with [str] keys. *)
Inductive json :=
  | JNull
  | JBool (b : bool)
  | JNum (n : Z)
  | JStr (s : string)
  | JArr (l : list json)
  | JObj (m : gmap string json).

(** [d.get(k)]: the value at [k], [None] where the key is absent. *)
Definition dict_get (k : string) (d : gmap string json) : json :=
  default JNull (d !! k).

(** [d.update(r)] for two dictionaries: the entries of [r] are written into
    [d], overwriting the keys they share. *)
Definition dict_update {V} (d r : gmap string V) : gmap string V := r ∪ d.

(** [v == s] for a decoded value [v] and a [str] literal [s]. *)
Definition json_eq_str (v : json) (s : string) : bool :=
  match v with
  | JStr s' => bool_decide (s' = s)
  | _ => false
  end.

(** ** Formatted strings

    An f-string is kept as its fragments, in order: literal text (or an
    interpolated [str], which renders as itself), an interpolated [int], and
    an interpolated decoded value, rendered by Python's [str()]. *)
Inductive frag :=
  | Lit (s : string)
  | Int (z : Z)
  | Val (v : json).

Abbreviation fstr := (list frag).

(** ** Exceptions and results *)

Inductive exn :=
  | CrunchyrollError (msg : fstr)
  | KeyError (k : string)
  | IndexError
  | TypeError
  | ValueError
  | AttributeError
  | JSONDecodeError
  | TransportError.

Inductive result (A : Type) :=
  | Return (a : A)
  | Raise (e : exn).
Arguments Return {A} a.
Arguments Raise {A} e.

Definition result_bind {A B} (r : result A) (k : A → result B) : result B :=
  match r with
  | Return a => k a
  | Raise e => Raise e
  end.

(** ** Built-ins on strings *)

Module Py.

(** A [str] is a [string] of code points below 256: a character here is a
    code point, not a byte of an encoding. *)

(** [str.isspace] on these code points: tab, line feed, vertical tab, form
    feed, carriage return, the four separators 28..31, the space, the next
    line (133) and the no-break space (160). *)
Definition isspace (c : ascii) : bool :=
  match c with
  | "009" | "010" | "011" | "012" | "013"
  | "028" | "029" | "030" | "031" | " "
  | "133" | "160" => true
  | _ => false
  end%char.

Fixpoint lstrip (s : string) : string :=
  match s with
  | String c s' => if isspace c then lstrip s' else s
  | EmptyString => EmptyString
  end.

Fixpoint rstrip (s : string) : string :=
  match s with
  | String c s' =>
      match rstrip s' with
      | EmptyString => if isspace c then EmptyString else String c EmptyString
      | r => String c r
      end
  | EmptyString => EmptyString
  end.

(** [s.strip()] *)
Definition strip (s : string) : string := rstrip (lstrip s).

Definition newline : string := String "010"%char EmptyString.

(** [s.split("\n")]: never empty, a trailing newline yields a last empty
    line. *)
Fixpoint split_lines (s : string) : list string :=
  match s with
  | EmptyString => [EmptyString]
  | String c s' =>
      if Ascii.eqb c "010"%char then EmptyString :: split_lines s'
      else match split_lines s' with
           | l :: ls => String c l :: ls
           | [] => [String c EmptyString]
           end
  end.

(** The value of a decimal digit, by its code: [0] is 48, [9] is 57. *)
Definition digit (c : ascii) : option Z :=
  let code := Z.of_N (N_of_ascii c) in
  if ((48 <=? code) && (code <=? 57))%Z then Some (code - 48)%Z else None.

(** The digits of an [int] literal after its first digit: digits, each
    optionally preceded by one underscore. *)
Fixpoint digits_from (acc : Z) (s : string) : option Z :=
  match s with
  | EmptyString => Some acc
  | String c s' =>
      match digit c with
      | Some d => digits_from (10 * acc + d)%Z s'
      | None =>
          if Ascii.eqb c "_"%char then
            match s' with
            | String c' s'' =>
                match digit c' with
                | Some d => digits_from (10 * acc + d)%Z s''
                | None => None
                end
            | EmptyString => None
            end
          else None
      end
  end.

(** How many decimal digits a string holds. *)
Fixpoint count_digits (s : string) : Z :=
  match s with
  | String c s' =>
      match digit c with
      | Some _ => (1 + count_digits s')%Z
      | None => count_digits s'
      end
  | EmptyString => 0%Z
  end.

(** The most digits [int()] converts, as CPython sets it
    ([sys.int_info.default_max_str_digits]). *)
Definition max_str_digits : Z := 4300%Z.

(** An [int] literal without its sign: a digit first, no more digits than
    [int()] converts. *)
Definition unsigned (s : string) : option Z :=
  if (max_str_digits <? count_digits s)%Z then None
  else
    match s with
    | String c s' =>
        match digit c with
        | Some d => digits_from d s'
        | None => None
        end
    | EmptyString => None
    end.

(** The white space [int()] skips around a literal: that of C in the ASCII
    range (9 to 13 and the space) and the Unicode white space beyond it
    (133 and 160); not the separators 28..31, which [str.strip] removes. *)
Definition int_space (c : ascii) : bool :=
  match c with
  | "009" | "010" | "011" | "012" | "013" | " " | "133" | "160" => true
  | _ => false
  end%char.

Fixpoint int_lstrip (s : string) : string :=
  match s with
  | String c s' => if int_space c then int_lstrip s' else s
  | EmptyString => EmptyString
  end.

Fixpoint int_rstrip (s : string) : string :=
  match s with
  | String c s' =>
      match int_rstrip s' with
      | EmptyString => if int_space c then EmptyString else String c EmptyString
      | r => String c r
      end
  | EmptyString => EmptyString
  end.

(** [int(s)] on a [str]: surrounding white space, an optional sign, decimal
    digits; [None] stands for the [ValueError]. *)
Definition int (s : string) : option Z :=
  match int_rstrip (int_lstrip s) with
  | String "+" s' => unsigned s'
  | String "-" s' => Z.opp <$> unsigned s'
  | s' => unsigned s'
  end.

(** [c * n] for a one-character [str] [c]. *)
Fixpoint times (n : nat) (c : ascii) : string :=
  match n with
  | O => EmptyString
  | S n' => String c (times n' c)
  end.

(** [str(n)] on an [int]. *)
Definition str_of_int (n : Z) : string := pretty n.

Fixpoint prefix (p s : string) : bool :=
  match p, s with
  | EmptyString, _ => true
  | String a p', String b s' => Ascii.eqb a b && prefix p' s'
  | String _ _, EmptyString => false
  end.

Fixpoint drop (n : nat) (s : string) : string :=
  match n, s with
  | S n', String _ s' => drop n' s'
  | _, _ => s
  end.

End Py.

(** ** Requests, responses and the network *)

(** The constants of the endpoint registry ([utils]), by name. *)
Inductive endpoint :=
  | TOKEN_ENDPOINT | INDEX_ENDPOINT | PROFILE_ENDPOINT | SEARCH_ENDPOINT
  | SERIES_ENDPOINT | SEASONS_ENDPOINT | EPISODES_ENDPOINT | STREAMS_ENDPOINT
  | SIMILAR_ENDPOINT | NEWSFEED_ENDPOINT | BROWSE_ENDPOINT.

(** A URL: a [str] of the caller's, a registry constant as it is, or a
    registry template with the arguments of its [.format(...)]. *)
Inductive url :=
  | Str (s : string)
  | Const (e : endpoint)
  | Format (e : endpoint) (args : list json).

Record request := Request {
  method : string;
  target : url;
  headers : gmap string fstr;
  params : option (gmap string json);
  data : option (gmap string json);
}.

(** A response: [r.status_code], [r.text] and what [r.json()] decodes;
    [None] where [r.json()] raises.  The bodies of this API are JSON
    objects, [Dict] in the annotation of [_make_request]. *)
Record response := Response {
  status_code : Z;
  text : string;
  json_body : option (gmap string json);
}.

(** What [httpx.request] does with a request: it returns a response, or
    raises a transport error. *)
Inductive outcome :=
  | Answers (r : response)
  | Fails.

(** One HTTP call as the history keeps it: the [login] flag of the
    [_make_request] call that issued it ([False] for the [httpx.get] of
    [get_formats], which no [_make_request] issues), the request and its
    outcome. *)
Record exchange := Exchange {
  login_flag : bool;
  sent : request;
  got : outcome;
}.

(** The [headers] argument of [_make_request]: omitted (the one dictionary
    built for the default [dict()] when the class body ran), a dictionary the
    caller holds, at its place in the store, or a dictionary built in the
    call expression, that nothing else refers to. *)
Inductive headers_arg :=
  | Omitted
  | Passed (l : nat)
  | Fresh (h : gmap string fstr).

(** ** Typed entities ([types]) *)

Inductive kind :=
  | Collection | Series | Season | Episode | StreamsInfo | Panel | NewsFeed.

Inductive entity := Entity (k : kind) (fields : gmap string json).

(** One record of the parsed playlist. *)
Record PlaylistItem := MkPlaylistItem {
  url_ : string;
  bandwidth : Z;
  width : Z;
  height : Z;
  framerate : option string;
  codecs : option string;
}.

(** The groups of a successful [re.match(PLAYLIST_REG, ...)]; a group that
    did not take part in the match is [None]. *)
Record groups := Groups {
  group1 : option string;
  group2 : option string;
  group3 : option string;
  group4 : option string;
  group5 : option string;
}.

(** What a public method returns. *)
Inductive value :=
  | NoneValue
  | Raw (r : gmap string json)
  | One (e : entity)
  | Many (l : list entity)
  | Formats (l : list PlaylistItem).

(** ** The state *)

Record state := State {
  email : string;
  password : string;
  locale : string;
  config : gmap string json;           (* self.config *)
  api_headers : gmap string fstr;      (* self.api_headers *)
  default_headers : gmap string fstr;  (* the default of [headers] *)
  store : gmap nat (gmap string fstr); (* the callers' header dictionaries *)
  log : list exchange;                 (* the HTTP calls made so far *)
  stdout : list fstr;
}.

Definition set_config (c : gmap string json) (st : state) : state :=
  State (email st) (password st) (locale st) c (api_headers st)
        (default_headers st) (store st) (log st) (stdout st).

Definition set_api_headers (h : gmap string fstr) (st : state) : state :=
  State (email st) (password st) (locale st) (config st) h
        (default_headers st) (store st) (log st) (stdout st).

Definition set_default_headers (h : gmap string fstr) (st : state) : state :=
  State (email st) (password st) (locale st) (config st) (api_headers st)
        h (store st) (log st) (stdout st).

Definition set_store (s : gmap nat (gmap string fstr)) (st : state) : state :=
  State (email st) (password st) (locale st) (config st) (api_headers st)
        (default_headers st) s (log st) (stdout st).

Definition set_log (l : list exchange) (st : state) : state :=
  State (email st) (password st) (locale st) (config st) (api_headers st)
        (default_headers st) (store st) l (stdout st).

Definition set_stdout (o : list fstr) (st : state) : state :=
  State (email st) (password st) (locale st) (config st) (api_headers st)
        (default_headers st) (store st) (log st) o.

(** [Crunchyroll(email, password, locale)]: [__init__], in a world where
    the default dictionary, the store, the history and what was printed are
    as given. *)
Definition __init__ (email password locale : string)
    (dflt : gmap string fstr) (sto : gmap nat (gmap string fstr))
    (hist : list exchange) (out : list fstr) : state :=
  {| email := email; password := password; locale := locale;
     config := ∅;
     api_headers :=
       {[ "User-Agent" := [Lit "Mozilla/5.0 (Windows NT 10.0; Win64; x64) AppleWebKit/537.36 (KHTML, like Gecko) Chrome/96.0.4664.45 Safari/537.36"];
          "Content-Type" := [Lit "application/x-www-form-urlencoded"] ]};
     default_headers := dflt; store := sto; log := hist; stdout := out |}.

(** ** The monad *)

Definition M (A : Type) : Type := state → result A * state.

Definition ret {A} (a : A) : M A := λ st, (Return a, st).

Definition bind {A B} (m : M A) (k : A → M B) : M B :=
  λ st, match m st with
        | (Return a, st') => k a st'
        | (Raise e, st') => (Raise e, st')
        end.

Definition raise {A} (e : exn) : M A := λ st, (Raise e, st).

Definition lift {A} (r : result A) : M A := λ st, (r, st).

Definition get_state : M state := λ st, (Return st, st).

Definition modify (f : state → state) : M unit := λ st, (Return tt, f st).

#[global] Instance M_ret : MRet M := @ret.
#[global] Instance M_bind : MBind M := λ A B k m, bind m k.

(** ** What the client takes from the rest of the package and from outside *)

(** The parts of [utils] and [types] the class uses, and the world it talks
    to.  [get_date] reads the clock, which may depend on what has happened
    so far; timestamps are points of a discrete line.  [net] is the remote
    service: any function of the history and the request. *)
Record env := Env {
  AUTHORIZATION : string;
  version : string;
  get_date : list exchange → Z;
  str_to_date : json → result Z;
  net : list exchange → request → outcome;
  PLAYLIST_REG : string → option groups;
  construct : kind → gmap string json → result entity;
  fixup_path : list string;
  fixup_name : string;
}.

(** ** The response normaliser *)

(** Modelled from the spec: [fixup] of [utils], which is not among the
    sources.  The spec has it repair, in a decoded stream-metadata object,
    one nested mapping that uses the empty string as a key, by renaming that
    entry to its intended field name, and leave every other shape as it is.
    Where the nested mapping sits and what the intended name is are not
    said: they are the path and the name given here. *)
Definition rename_empty_key (name : string) (m : gmap string json)
    : gmap string json :=
  match m !! EmptyString with
  | Some v => <[name := v]> (delete EmptyString m)
  | None => m
  end.

(** Modelled from the spec: the walk of [fixup] to the nested mapping it
    repairs, along [path]; a body of another shape is left as it is. *)
Fixpoint fixup_at (path : list string) (name : string) (m : gmap string json)
    : gmap string json :=
  match path with
  | [] => rename_empty_key name m
  | k :: path' =>
      match m !! k with
      | Some (JObj m') => <[k := JObj (fixup_at path' name m')]> m
      | _ => m
      end
  end.

(** Modelled from the spec: [fixup(r)], which works in place: the result is
    the content of [r] afterwards. *)
Definition fixup (E : env) (r : gmap string json) : gmap string json :=
  fixup_at (fixup_path E) (fixup_name E) r.

(** ** The playlist pattern *)

Module Pattern.

(** The longest run of decimal digits at the head of a string, and what
    follows it. *)
Fixpoint digits (s : string) : string * string :=
  match s with
  | String c s' =>
      match Py.digit c with
      | Some _ => let '(d, rest) := digits s' in (String c d, rest)
      | None => (EmptyString, s)
      end
  | EmptyString => (EmptyString, EmptyString)
  end.

(** The characters before the first [stop], and what follows it. *)
Fixpoint until (stop : ascii) (s : string) : option (string * string) :=
  match s with
  | String c s' =>
      if Ascii.eqb c stop then Some (EmptyString, s')
      else '(g, rest) ← until stop s'; Some (String c g, rest)
  | EmptyString => None
  end.

Definition dquote : ascii := "034"%char.

Definition literal (p s : string) : option string :=
  if Py.prefix p s then Some (Py.drop (String.length p) s) else None.

Definition number (s : string) : option (string * string) :=
  match digits s with
  | (EmptyString, _) => None
  | (d, rest) => Some (d, rest)
  end.

(** Modelled from the spec: [PLAYLIST_REG] of [utils], which is not among
    the sources: the variant-stream attribute pattern, capturing
    bandwidth, width, height, an optional frame rate and the codecs list,
    read off the descriptor lines the spec gives.  [re.match] anchors it
    at the start of the line only. *)
Definition stream_inf (line : string) : option groups :=
  s ← literal "#EXT-X-STREAM-INF:BANDWIDTH=" line;
  '(bw, s) ← number s;
  s ← literal ",RESOLUTION=" s;
  '(w, s) ← number s;
  s ← literal "x" s;
  '(h, s) ← number s;
  let '(fr, s) :=
    match literal ",FRAME-RATE=" s ≫= until ","%char with
    | Some (EmptyString, _) | None => (None, s)
    | Some (fr, s') => (Some fr, String ","%char s')
    end in
  s ← literal (String.append ",CODECS=" (String dquote EmptyString)) s;
  '(cd, _) ← until dquote s;
  match cd with
  | EmptyString => None
  | _ => Some (Groups (Some bw) (Some w) (Some h) fr (Some cd))
  end.

End Pattern.

(** ** The client *)

Section Client.

Context (E : env).

(** *** Small pieces of Python *)

(** [k in d] *)
Definition dict_has (k : string) (d : gmap string json) : bool :=
  match d !! k with Some _ => true | None => false end.

(** [v[k]] for a decoded value [v] and a [str] key [k]: only a [dict]
    takes such a subscript. *)
Definition subscript (v : json) (k : string) : result json :=
  match v with
  | JObj m => match m !! k with Some x => Return x | None => Raise (KeyError k) end
  | _ => Raise TypeError
  end.

(** [self.config.get("cms", {}).get(k)] *)
Definition cms_get (k : string) : M json := λ st,
  match config st !! "cms" with
  | None => (Return JNull, st)
  | Some (JObj m) => (Return (dict_get k m), st)
  | Some _ => (Raise AttributeError, st)
  end.

(** The constructor of an entity class applied to an unpacked mapping,
    as in [Series] of [r] unpacked: only a mapping can be unpacked. *)
Definition spread (k : kind) (v : json) : result entity :=
  match v with
  | JObj m => construct E k m
  | _ => Raise TypeError
  end.

Fixpoint spread_all (k : kind) (l : list json) : result (list entity) :=
  match l with
  | [] => Return []
  | v :: l' =>
      result_bind (spread k v) (λ e,
      result_bind (spread_all k l') (λ es, Return (e :: es)))
  end.

(** The list comprehension that builds one entity per item of [items]: a
    list is walked; an empty [str] or [dict] has nothing to walk; a [str]
    or [dict] that is not empty yields [str] items, which cannot be
    unpacked; anything else is not iterable. *)
Definition comprehension (k : kind) (items : json) : result (list entity) :=
  match items with
  | JArr l => spread_all k l
  | JStr EmptyString => Return []
  | JObj m => if bool_decide (m = ∅) then Return [] else Raise TypeError
  | _ => Raise TypeError
  end.

(** *** [_make_request], lines 43 to 62 *)

(** [headers.update(self.api_headers)], line 43: the dictionary the
    argument denotes is updated where it lives; the result is its content
    after the update.  A place of the store that holds no dictionary
    stands for an argument that is not a [dict]. *)
Definition update_headers (h : headers_arg) : M (gmap string fstr) := λ st,
  match h with
  | Omitted =>
      let h' := dict_update (default_headers st) (api_headers st) in
      (Return h', set_default_headers h' st)
  | Passed l =>
      match store st !! l with
      | Some h0 =>
          let h' := dict_update h0 (api_headers st) in
          (Return h', set_store (<[l := h']> (store st)) st)
      | None => (Raise AttributeError, st)
      end
  | Fresh h0 => (Return (dict_update h0 (api_headers st)), st)
  end.

(** [httpx.request(...)], lines 44 to 50 *)
Definition httpx_request (login : bool) (rq : request) : M response := λ st,
  let o := net E (log st) rq in
  let st' := set_log (log st ++ [Exchange login rq o]) st in
  match o with
  | Answers r => (Return r, st')
  | Fails => (Raise TransportError, st')
  end.

(** [if code != 200: raise ...; return r_json], lines 60 to 62 *)
Definition check_status (r : response) (r_json : gmap string json)
    : result (gmap string json) :=
  if bool_decide (status_code r ≠ 200%Z)
  then Raise (CrunchyrollError [Lit "["; Int (status_code r); Lit "] "; Lit (text r)])
  else Return r_json.

(** Lines 51 to 62: what [_make_request] makes of a response. *)
Definition classify (r : response) : result (gmap string json) :=
  let code := status_code r in
  match json_body r with
  | None => Raise JSONDecodeError
  | Some r_json =>
      if dict_has "error" r_json then
        let error_code := dict_get "error" r_json in
        if json_eq_str error_code "invalid_grant"
        then Raise (CrunchyrollError [Lit "["; Int code; Lit "] Invalid login credentials."])
        else check_status r r_json
      else if dict_has "message" r_json && dict_has "code" r_json then
        let message := dict_get "message" r_json in
        Raise (CrunchyrollError [Lit "["; Int code; Lit "] Error occured: "; Val message])
      else check_status r r_json
  end.

(** Lines 43 to 62: the part of [_make_request] after its two
    [if not login] checks. *)
Definition send (method : string) (url : url) (headers : headers_arg)
    (params data : option (gmap string json)) (login : bool)
    : M (gmap string json) :=
  h ← update_headers headers;
  r ← httpx_request login (Request method url h params data);
  lift (classify r).

(** The exchange was answered, with a body the dispatcher returns. *)
Definition answered (x : exchange) (b : gmap string json) : Prop :=
  ∃ r, got x = Answers r ∧ classify r = Return b.

(** *** [_login] *)

(** [_login] calls [_make_request] with [login=True] only, and with that
    flag [_make_request] skips lines 39 to 42 and is [send]: see
    [_make_request_login] below.  Its three steps, in order: *)

(** Lines 65 to 82: the credentials for a bearer token. *)
Definition token_step : M unit :=
  st ← get_state;
  let headers := {[ "Authorization" := [Lit (AUTHORIZATION E)] ]} in
  r ← send "POST" (Const TOKEN_ENDPOINT) (Fresh headers) None
         (Some {[ "username" := JStr (email st);
                  "password" := JStr (password st);
                  "grant_type" := JStr "password";
                  "scope" := JStr "offline_access" ]})
         true;
  let access_token := dict_get "access_token" r in
  let token_type := dict_get "token_type" r in
  let authorization :=
    {[ "Authorization" := [Val token_type; Lit " "; Val access_token] ]} in
  modify (λ st, set_config (dict_update (config st) r) st);;
  modify (λ st, set_api_headers (dict_update (api_headers st) authorization) st).

(** Lines 83 and 84: the index document. *)
Definition index_step : M unit :=
  r ← send "GET" (Const INDEX_ENDPOINT) Omitted None None true;
  modify (λ st, set_config (dict_update (config st) r) st).

(** Lines 85 and 86: the profile. *)
Definition profile_step : M unit :=
  r ← send "GET" (Const PROFILE_ENDPOINT) Omitted None None true;
  modify (λ st, set_config (dict_update (config st) r) st).

Definition _login : M unit :=
  token_step;; index_step;; profile_step.

(** *** [_update_session] *)

Definition _update_session : M unit := λ st,
  match config st !! "cms" with
  | Some cms =>
      let current_time := get_date E (log st) in
      match result_bind (subscript cms "expires") (str_to_date E) with
      | Return expires_time =>
          if (current_time >? expires_time)%Z then _login st
          else (Return tt, st)
      | Raise e => (Raise e, st)
      end
  | None => (Return tt, st)
  end.

(** *** [_make_request] *)

(** Lines 39 to 42: the two [if not login] checks. *)
Definition checks (login : bool) : M unit :=
  st ← get_state;
  if bool_decide (config st = ∅) && negb login
  then raise (CrunchyrollError [Lit "Client is not started yet!"])
  else if negb login then _update_session else ret tt.

Definition _make_request (method : string) (url : url)
    (headers : headers_arg) (params data : option (gmap string json))
    (login : bool) : M (gmap string json) :=
  checks login;;
  send method url headers params data login.

(** The call gets as far as its HTTP request, which the service answers
    with [r]; [st'] is the state the call ends in. *)
Definition receives (method : string) (url : url)
    (headers : headers_arg) (params data : option (gmap string json))
    (login : bool) (st : state) (r : response) (st' : state) : Prop :=
  ∃ st0 h st1,
    checks login st = (Return tt, st0) ∧
    update_headers headers st0 = (Return h, st1) ∧
    net E (log st1) (Request method url h params data) = Answers r ∧
    st' = set_log (log st1 ++
            [Exchange login (Request method url h params data) (Answers r)]) st1.

(** *** [start] *)

Definition start : M unit :=
  modify (λ st, set_stdout
    (stdout st ++ [[Lit "Starting Crunchyroll Client "; Lit (version E);
                    Lit "!"; Lit Py.newline;
                    Lit "Made by stefanodvx | https://github.com/stefanodvx/crunchyroll";
                    Lit Py.newline]]) st);;
  _login.

End Client.

(** ** The public methods *)

Section Api.

Context (E : env).

Definition many (k : kind) (raw_json : bool) (r : gmap string json) : M value :=
  if negb raw_json
  then lift (result_bind (comprehension E k (dict_get "items" r)) (λ l, Return (Many l)))
  else ret (Raw r).

Definition one (k : kind) (raw_json : bool) (r : gmap string json) : M value :=
  if negb raw_json
  then lift (result_bind (construct E k r) (λ e, Return (One e)))
  else ret (Raw r).

(** The [Policy], [Signature], [Key-Pair-Id] and [locale] entries of the
    [params] of a content request, read in that order. *)
Definition signed_params (st : state) (extra : gmap string json)
    : M (gmap string json) :=
  policy ← cms_get "policy";
  signature ← cms_get "signature";
  key_pair_id ← cms_get "key_pair_id";
  ret (<["locale" := JStr (locale st)]>
       (<["Key-Pair-Id" := key_pair_id]>
        (<["Signature" := signature]>
         (<["Policy" := policy]> extra)))).

Definition search (query : string) (n : Z) (raw_json : bool) : M value :=
  st ← get_state;
  r ← _make_request E "GET" (Const SEARCH_ENDPOINT) Omitted
        (Some {[ "q" := JStr query;
                 "n" := JStr (Py.str_of_int n);
                 "locale" := JStr (locale st) ]})
        None false;
  many Collection raw_json r.

Definition get_series (series_id : string) (raw_json : bool) : M value :=
  st ← get_state;
  bucket ← cms_get "bucket";
  params ← signed_params st ∅;
  r ← _make_request E "GET" (Format SERIES_ENDPOINT [bucket; JStr series_id])
        Omitted (Some params) None false;
  one Series raw_json r.

Definition get_seasons (series_id : string) (raw_json : bool) : M value :=
  st ← get_state;
  bucket ← cms_get "bucket";
  params ← signed_params st {[ "series_id" := JStr series_id ]};
  r ← _make_request E "GET" (Format SEASONS_ENDPOINT [bucket])
        Omitted (Some params) None false;
  many Season raw_json r.

Definition get_episodes (season_id : string) (raw_json : bool) : M value :=
  st ← get_state;
  bucket ← cms_get "bucket";
  params ← signed_params st {[ "season_id" := JStr season_id ]};
  r ← _make_request E "GET" (Format EPISODES_ENDPOINT [bucket])
        Omitted (Some params) None false;
  many Episode raw_json r.

(** The lazy group of [videos\/(.+?)\/streams] once [videos/] is read: at
    least one character, none a line feed, up to the first place where
    [/streams] follows. *)
Fixpoint stream_id_group (acc s : string) : option string :=
  match s with
  | String c s' =>
      if Ascii.eqb c "010"%char then None
      else if Py.prefix "/streams" s' then Some (String.rev (String c acc))
      else stream_id_group (String c acc) s'
  | EmptyString => None
  end.

(** [re.search(r"videos\/(.+?)\/streams", href)], its group 1: the
    leftmost place where the pattern matches. *)
Fixpoint search_stream_id (href : string) : option string :=
  match (if Py.prefix "videos/" href
         then stream_id_group EmptyString (Py.drop 7 href) else None) with
  | Some g => Some g
  | None =>
      match href with
      | String _ href' => search_stream_id href'
      | EmptyString => None
      end
  end.

(** [get_streams]: the episode is used through
    [episode.links.streams.href] only, which is the argument here. *)
Definition get_streams (href : string) (raw_json : bool) : M value :=
  st ← get_state;
  match search_stream_id href with
  | None => raise AttributeError
  | Some stream_id =>
      bucket ← cms_get "bucket";
      params ← signed_params st ∅;
      r ← _make_request E "GET"
            (Format STREAMS_ENDPOINT [bucket; JStr stream_id])
            Omitted (Some params) None false;
      let r := fixup E r in
      one StreamsInfo raw_json r
  end.

Definition get_similar (series_id : string) (n : Z) (raw_json : bool) : M value :=
  st ← get_state;
  r ← _make_request E "GET"
        (Format SIMILAR_ENDPOINT [dict_get "account_id" (config st)])
        Omitted
        (Some {[ "guid" := JStr series_id;
                 "n" := JStr (Py.str_of_int n);
                 "locale" := JStr (locale st) ]})
        None false;
  many Panel raw_json r.

Definition news_feed (n : Z) (raw_json : bool) : M value :=
  st ← get_state;
  r ← _make_request E "GET" (Const NEWSFEED_ENDPOINT) Omitted
        (Some {[ "n" := JStr (Py.str_of_int n);
                 "locale" := JStr (locale st) ]})
        None false;
  one NewsFeed raw_json r.

Definition browse (sort_by : string) (n : Z) (raw_json : bool) : M value :=
  st ← get_state;
  r ← _make_request E "GET" (Const BROWSE_ENDPOINT) Omitted
        (Some {[ "sort_by" := JStr sort_by;
                 "n" := JStr (Py.str_of_int n);
                 "locale" := JStr (locale st) ]})
        None false;
  many Panel raw_json r.

(** *** [get_formats] *)

(** [int(regesp.group(k))]: [int(None)] is a [TypeError], a [str] that is
    no integer literal a [ValueError]. *)
Definition int_group (g : option string) : result Z :=
  match g with
  | None => Raise TypeError
  | Some s => match Py.int s with Some z => Return z | None => Raise ValueError end
  end.

(** The loop of lines 297 to 307: [todo] is what is left of [lines] to
    walk, [i] the index [enumerate(lines, 1)] gives its first line. *)
Fixpoint scan (lines : list string) (i : nat) (todo : list string)
    (formats : list PlaylistItem) : result (list PlaylistItem) :=
  match todo with
  | [] => Return formats
  | line :: todo' =>
      match PLAYLIST_REG E (Py.strip line) with
      | Some regesp =>
          match lines !! i with
          | Some next =>
              result_bind (int_group (group1 regesp)) (λ b,
              result_bind (int_group (group2 regesp)) (λ w,
              result_bind (int_group (group3 regesp)) (λ h,
              scan lines (S i) todo'
                (formats ++ [MkPlaylistItem (Py.strip next) b w h
                               (group4 regesp) (group5 regesp)]))))
          | None => Raise IndexError
          end
      | None => scan lines (S i) todo' formats
      end
  end.

(** Lines 294 and 296 to 308, on the text of the playlist. *)
Definition formats_of_text (text : string) : result (list PlaylistItem) :=
  let lines := Py.split_lines text in
  scan lines 1 lines [].

Definition get_formats (url : string) : M value :=
  r ← httpx_request E false (Request "GET" (Str url) ∅ None None);
  lift (result_bind (formats_of_text (text r)) (λ l, Return (Formats l))).

(** *** Calls *)

Inductive call :=
  | Start
  | Search (query : string) (n : Z) (raw_json : bool)
  | GetSeries (series_id : string) (raw_json : bool)
  | GetSeasons (series_id : string) (raw_json : bool)
  | GetEpisodes (season_id : string) (raw_json : bool)
  | GetStreams (href : string) (raw_json : bool)
  | GetSimilar (series_id : string) (n : Z) (raw_json : bool)
  | NewsFeedCall (n : Z) (raw_json : bool)
  | Browse (sort_by : string) (n : Z) (raw_json : bool)
  | GetFormats (url : string).

Definition run (c : call) : M value :=
  match c with
  | Start => start E;; ret NoneValue
  | Search q n raw => search q n raw
  | GetSeries s raw => get_series s raw
  | GetSeasons s raw => get_seasons s raw
  | GetEpisodes s raw => get_episodes s raw
  | GetStreams h raw => get_streams h raw
  | GetSimilar s n raw => get_similar s n raw
  | NewsFeedCall n raw => news_feed n raw
  | Browse s n raw => browse s n raw
  | GetFormats u => get_formats u
  end.

(** A caller that goes on after an exception: the state after a sequence
    of calls, whatever each returned or raised. *)
Definition run_all (cs : list call) (st : state) : state :=
  foldl (λ st c, (run c st).2) st cs.

End Api.

(** ** Reading the history *)

(** The first request of a login sequence: the token request, issued with
    the [login] flag. *)
Definition is_token_request (x : exchange) : bool :=
  login_flag x &&
  match target (sent x) with Const TOKEN_ENDPOINT => true | _ => false end.

(** How many login sequences a stretch of the history starts. *)
Definition logins (l : list exchange) : nat :=
  List.length (filter (λ x, is_token_request x = true) l).

(** [m] keeps the keys of the session state: whatever it returns or raises,
    every key of [self.config] before it is a key after it. *)
Definition keeps {A} (m : M A) : Prop :=
  ∀ st, dom (config st) ⊆ dom (config (m st).2).

(** The session state is complete: it has an [access_token] and a [cms]
    block. *)
Definition complete (cfg : gmap string json) : Prop :=
  is_Some (cfg !! "access_token") ∧ is_Some (cfg !! "cms").

(** The dictionary a [headers] argument denotes in a state. *)
Definition denoted (h : headers_arg) (st : state) : option (gmap string fstr) :=
  match h with
  | Omitted => Some (default_headers st)
  | Passed l => store st !! l
  | Fresh h0 => Some h0
  end.

(** The calls that go through [_make_request] after nothing that can fail:
    every public method but [start] and [get_formats], [get_streams] when
    the episode's href holds a stream id. *)
Definition guarded (c : call) : bool :=
  match c with
  | Start | GetFormats _ => false
  | GetStreams href _ =>
      match search_stream_id href with Some _ => true | None => false end
  | _ => true
  end.

Definition NotStarted : exn :=
  CrunchyrollError [Lit "Client is not started yet!"].

(** ** A small world to run the client in *)

Module Example.

(** A clock and timestamps in seconds; [expires] is read as a decimal
    number of seconds. *)
Definition seconds (v : json) : result Z :=
  match v with
  | JStr s => match Py.int s with Some t => Return t | None => Raise ValueError end
  | _ => Raise TypeError
  end.

Definition ok (body : gmap string json) : outcome :=
  Answers (Response 200 "(json)" (Some body)).

Definition descriptor (bw res : string) : string :=
  String.append "#EXT-X-STREAM-INF:BANDWIDTH="
    (String.append bw (String.append ",RESOLUTION="
      (String.append res (String.append ",FRAME-RATE=23.976,CODECS="
        (String Pattern.dquote
          (String.append "avc1,mp4a" (String Pattern.dquote EmptyString))))))).

Definition line1 : string := descriptor "831200" "640x360".
Definition line2 : string := "http://example.com/360p.m3u8".
Definition line3 : string := descriptor "2145000" "1920x1080".
Definition line4 : string := "http://example.com/1080p.m3u8".

(** The four-line playlist of the spec. *)
Definition playlist : string :=
  String.append line1 (String.append Py.newline
    (String.append line2 (String.append Py.newline
      (String.append line3 (String.append Py.newline line4))))).

Definition cms_block (expires : string) : json :=
  JObj {[ "bucket" := JStr "/bucket"; "policy" := JStr "pol";
          "signature" := JStr "sig"; "key_pair_id" := JStr "kp";
          "expires" := JStr expires ]}.

(** A service that accepts the login and answers every endpoint; its CMS
    bundle expires at second 2000.  A URL of the caller's is the playlist
    [playlist], except [last] whose text is a lone descriptor line. *)
Definition service (_ : list exchange) (rq : request) : outcome :=
  match target rq with
  | Const TOKEN_ENDPOINT =>
      ok {[ "access_token" := JStr "tok"; "token_type" := JStr "Bearer" ]}
  | Const INDEX_ENDPOINT => ok {[ "cms" := cms_block "2000" ]}
  | Const PROFILE_ENDPOINT => ok {[ "account_id" := JStr "acc" ]}
  | Str "last" => Answers (Response 200 line1 None)
  | Str _ => Answers (Response 200 playlist None)
  | _ => ok {[ "items" := JArr [] ]}
  end.

(** The same service with its index endpoint out of order. *)
Definition service_index_down (h : list exchange) (rq : request) : outcome :=
  match target rq with
  | Const INDEX_ENDPOINT =>
      Answers (Response 500 "{}" (Some ∅))
  | _ => service h rq
  end.

(** A service whose answers hold an [error] other than [invalid_grant]
    next to a [message] and a [code]. *)
Definition error_body : gmap string json :=
  {[ "error" := JStr "server_error"; "message" := JStr "try later";
     "code" := JStr "internal" ]}.

Definition service_error (_ : list exchange) (_ : request) : outcome :=
  ok error_body.

(** A service that rejects the credentials, with a [message] and a [code]
    in the body. *)
Definition denied_body : gmap string json :=
  {[ "error" := JStr "invalid_grant"; "message" := JStr "denied";
     "code" := JStr "auth" ]}.

Definition service_denied (_ : list exchange) (_ : request) : outcome :=
  Answers (Response 401 "(json)" (Some denied_body)).

(** A service that answers with a [message] and a [code]. *)
Definition message_body : gmap string json :=
  {[ "message" := JStr "not found"; "code" := JStr "missing" ]}.

Definition service_message (_ : list exchange) (_ : request) : outcome :=
  Answers (Response 404 "(json)" (Some message_body)).

Definition world (now : Z) (svc : list exchange → request → outcome) : env :=
  {| AUTHORIZATION := "Basic client";
     version := "1.0";
     get_date := λ _, now;
     str_to_date := seconds;
     net := svc;
     PLAYLIST_REG := Pattern.stream_inf;
     construct := λ k m, Return (Entity k m);
     fixup_path := ["streams"];
     fixup_name := "none" |}.

(** A client just constructed, nothing else having happened. *)
Definition fresh : state :=
  __init__ "user@example.com" "secret" "en-US" ∅ ∅ [] [].

(** A client whose session holds a token and a CMS bundle that expires at
    second [expires]. *)
Definition started (expires : string) : state :=
  set_config {[ "access_token" := JStr "tok"; "cms" := cms_block expires ]} fresh.

(** The [params] of [search("q")] on such a client. *)
Definition search_params : option (gmap string json) :=
  Some {[ "q" := JStr "q"; "n" := JStr "6"; "locale" := JStr "en-US" ]}.

End Example.

(** ** More ways to read a state, a call and a playlist *)

(** The token request a login starts with, from the state it starts in. *)
Definition token_request (E : env) (st : state) : request :=
  Request "POST" (Const TOKEN_ENDPOINT)
    (dict_update {[ "Authorization" := [Lit (AUTHORIZATION E)] ]} (api_headers st))
    None
    (Some {[ "username" := JStr (email st);
             "password" := JStr (password st);
             "grant_type" := JStr "password";
             "scope" := JStr "offline_access" ]}).

(** The bearer entry [_login] writes for a token body. *)
Definition bearer (b : gmap string json) : fstr :=
  [Val (dict_get "token_type" b); Lit " "; Val (dict_get "access_token" b)].

(** [self.config.get("cms", {}).get(k)] when it does not raise. *)
Definition cms_value (k : string) (st : state) : json :=
  match config st !! "cms" with
  | Some (JObj m) => dict_get k m
  | _ => JNull
  end.

(** The signing entries of the [params] of a content request. *)
Definition signed (st : state) (extra : gmap string json) : gmap string json :=
  <["locale" := JStr (locale st)]>
  (<["Key-Pair-Id" := cms_value "key_pair_id" st]>
   (<["Signature" := cms_value "signature" st]>
    (<["Policy" := cms_value "policy" st]> extra))).

(** The value of [raw_json] in a call, for the methods that take it. *)
Definition raw_json_of (c : call) : option bool :=
  match c with
  | Start | GetFormats _ => None
  | Search _ _ raw | GetSimilar _ _ raw | Browse _ _ raw => Some raw
  | GetSeries _ raw | GetSeasons _ raw | GetEpisodes _ raw
  | GetStreams _ raw | NewsFeedCall _ raw => Some raw
  end.

(** The class of the items of the methods that return a list. *)
Definition item_kind (c : call) : option kind :=
  match c with
  | Search _ _ _ => Some Collection
  | GetSeasons _ _ => Some Season
  | GetEpisodes _ _ => Some Episode
  | GetSimilar _ _ _ | Browse _ _ _ => Some Panel
  | _ => None
  end.

(** The descriptor lines among [todo], each with the index
    [enumerate(lines, 1)] gives it, [i] being that of the first line. *)
Fixpoint descriptors (E : env) (i : nat) (todo : list string)
    : list (nat * groups) :=
  match todo with
  | [] => []
  | line :: todo' =>
      match PLAYLIST_REG E (Py.strip line) with
      | Some g => (i, g) :: descriptors E (S i) todo'
      | None => descriptors E (S i) todo'
      end
  end.

(** The record is the one the loop builds for a descriptor with groups [g]
    at index [i]. *)
Definition built_from (lines : list string) (d : nat * groups)
    (it : PlaylistItem) : Prop :=
  ∃ next,
    lines !! d.1 = Some next ∧ url_ it = Py.strip next ∧
    int_group (group1 d.2) = Return (bandwidth it) ∧
    int_group (group2 d.2) = Return (width it) ∧
    int_group (group3 d.2) = Return (height it) ∧
    framerate it = group4 d.2 ∧ codecs it = group5 d.2.

(** What a method makes of the body the dispatcher returned: its [return]
    statement, and for [get_streams] the [fixup] before it. *)
Definition finish (E : env) (c : call) (r : gmap string json) : M value :=
  match c with
  | Search _ _ raw => many E Collection raw r
  | GetSeries _ raw => one E Series raw r
  | GetSeasons _ raw => many E Season raw r
  | GetEpisodes _ raw => many E Episode raw r
  | GetStreams _ raw => one E StreamsInfo raw (fixup E r)
  | GetSimilar _ _ raw => many E Panel raw r
  | NewsFeedCall _ raw => one E NewsFeed raw r
  | Browse _ _ raw => many E Panel raw r
  | Start | GetFormats _ => ret NoneValue
  end.

(** The entity was built from the item, a mapping. *)
Definition built (E : env) (k : kind) (item : json) (e : entity) : Prop :=
  ∃ o, item = JObj o ∧ construct E k o = Return e.

(** The errors the loop of [get_formats] can raise. *)
Definition parse_error (e : exn) : Prop :=
  e = IndexError ∨ e = TypeError ∨ e = ValueError.

(** No line feed in the string: what [.] of a pattern can match. *)
Fixpoint one_line (s : string) : bool :=
  match s with
  | String c s' => negb (Ascii.eqb c "010"%char) && one_line s'
  | EmptyString => true
  end.

(** What [start] prints. *)
Definition banner (E : env) : fstr :=
  [Lit "Starting Crunchyroll Client "; Lit (version E);
   Lit "!"; Lit Py.newline;
   Lit "Made by stefanodvx | https://github.com/stefanodvx/crunchyroll";
   Lit Py.newline].

(** What no public method changes: the credentials and the dictionaries
    the callers hold; and what only grows: the history and the output. *)
Definition frame (st st' : state) : Prop :=
  email st' = email st ∧ password st' = password st ∧
  locale st' = locale st ∧ store st' = store st ∧
  (∃ out, stdout st' = stdout st ++ out) ∧
  (∃ new, log st' = log st ++ new).

(** The session state and the baseline headers are as they were, unless a
    login was started in between. *)
Definition unless_login (st st' : state) : Prop :=
  ∀ new, log st' = log st ++ new → logins new = 0 →
         config st' = config st ∧ api_headers st' = api_headers st.

Definition evolves (st st' : state) : Prop :=
  frame st st' ∧ unless_login st st'.

(** Whatever it returns or raises, [m] takes a state to one related to it
    by [R]. *)
Definition respects {A} (R : relation state) (m : M A) : Prop :=
  ∀ st, R st (m st).2.

(** ** More of the small world *)

Module Sample.

(** A service whose playlists hold no descriptor line. *)
Definition service_plain (_ : list exchange) (_ : request) : outcome :=
  Answers (Response 200 "#EXTM3U" None).

(** The answer of [Example.service] to the token request. *)
Definition token_body : gmap string json :=
  {[ "access_token" := JStr "tok"; "token_type" := JStr "Bearer" ]}.

(** Its answer to a request that is none of the login. *)
Definition items_body : gmap string json := {[ "items" := JArr [] ]}.

(** A session left by a login that failed at its index step: a token and
    no [cms] block. *)
Definition partial : state :=
  set_config token_body Example.fresh.

(** A session whose [cms] block has no [expires]. *)
Definition undated : state :=
  set_config {[ "cms" := JObj ∅ ]} Example.fresh.

Definition href : string :=
  "/cms/v2/US/M2/crunchyroll/videos/GX9UQ5V8E/streams?locale=en-US".

End Sample.

(** * Properties *)

(** ** The built-ins on small inputs *)

Example split_lines_trailing :
  Py.split_lines (String.append "a" (String.append Py.newline
                   (String.append "b" Py.newline)))
    = ["a"; "b"; EmptyString].
Proof. reflexivity. Qed.

Example strip_both_ends :
  Py.strip (String " " (String "009" (String.append "x y" (String "013" Py.newline))))
    = "x y".
Proof. reflexivity. Qed.

Example int_literals :
  Py.int " +1_000 " = Some 1000%Z ∧ Py.int "-12" = Some (-12)%Z ∧
  Py.int "1__0" = None ∧ Py.int "12_" = None ∧ Py.int "+" = None ∧
  Py.int EmptyString = None ∧ Py.int "0x10" = None.
Proof. by vm_compute. Qed.

Example int_white_space :
  Py.int (String "160" (String.append "12" (String "133" EmptyString)))
    = Some 12%Z ∧
  Py.int (String "028" "12") = None ∧
  Py.strip (String "160" (String "028" (String.append "a b" (String "133" EmptyString))))
    = "a b".
Proof. by vm_compute. Qed.

Example int_digit_limit :
  is_Some (Py.int (Py.times 4300 "1")) ∧
  Py.int (Py.times 4301 "1") = None ∧
  Py.int (Py.times 4301 "0") = None ∧
  is_Some (Py.int (String "-" (Py.times 4300 "1"))).
Proof.
  split_and!; [apply (bool_decide_unpack _)|..|apply (bool_decide_unpack _)];
    by vm_compute.
Qed.

Example stream_id_of_href :
  search_stream_id "/cms/v2/US/M2/crunchyroll/videos/GX9UQ5V8E/streams?locale=en-US"
    = Some "GX9UQ5V8E" ∧
  search_stream_id "videos//streams/streams" = Some "/streams" ∧
  search_stream_id "/videos/streams" = None.
Proof. by vm_compute. Qed.

Example stream_inf_without_frame_rate :
  Pattern.stream_inf
    (String.append "#EXT-X-STREAM-INF:BANDWIDTH=1,RESOLUTION=2x3,CODECS="
       (String Pattern.dquote (String.append "avc1" (String Pattern.dquote "  tail"))))
    = Some (Groups (Some "1") (Some "2") (Some "3") None (Some "avc1")).
Proof. by vm_compute. Qed.

(** ** The response normaliser *)

Section Normaliser.

Implicit Types (m : gmap string json) (name : string) (path : list string).

Lemma rename_empty_key_idem name m :
  rename_empty_key name (rename_empty_key name m) = rename_empty_key name m.
Proof.
  unfold rename_empty_key at 2 3.
  destruct (m !! EmptyString) as [v|] eqn:Hm.
  - destruct (decide (name = EmptyString)) as [->|Hne].
    + rewrite insert_delete_eq, (insert_id m EmptyString v) by done.
      unfold rename_empty_key. by rewrite Hm, insert_delete_eq, insert_id.
    + unfold rename_empty_key.
      by rewrite lookup_insert_ne, lookup_delete_eq.
  - unfold rename_empty_key. by rewrite Hm.
Qed.

Lemma fixup_at_idem path name m :
  fixup_at path name (fixup_at path name m) = fixup_at path name m.
Proof.
  revert m. induction path as [|k path IH]; intros m; simpl.
  - apply rename_empty_key_idem.
  - destruct (m !! k) as [[| | | | |m']|] eqn:Hk; rewrite ?Hk; try done.
    rewrite lookup_insert_eq, IH. apply insert_insert_eq.
Qed.

(** C9: the normaliser is idempotent: applied twice to a decoded
    stream-metadata object, it yields what it yields applied once. *)
Theorem fixup_idempotent (E : env) (r : gmap string json) :
  fixup E (fixup E r) = fixup E r.
Proof. apply fixup_at_idem. Qed.

End Normaliser.

(** ** The dispatcher, step by step *)

Section Dispatcher.

Context (E : env).

Implicit Types (st : state) (h : headers_arg) (u : url) (m : string)
  (p d : option (gmap string json)) (r : response).

Lemma update_headers_frame h st res st1 :
  update_headers h st = (res, st1) →
  config st1 = config st ∧ api_headers st1 = api_headers st ∧
  log st1 = log st ∧ locale st1 = locale st.
Proof.
  destruct h as [|l|h0]; simpl.
  - intros [= <- <-]. done.
  - destruct (store st !! l); intros [= <- <-]; done.
  - intros [= <- <-]. done.
Qed.

Lemma update_headers_raise h st e st1 :
  update_headers h st = (Raise e, st1) → st1 = st.
Proof.
  destruct h as [|l|h0]; simpl; try discriminate.
  destruct (store st !! l); [discriminate|]. by intros [= <- <-].
Qed.

(** [send], unfolded. *)
Lemma send_run m u h p d login st :
  send E m u h p d login st =
  match update_headers h st with
  | (Return hh, st1) =>
      let rq := Request m u hh p d in
      let o := net E (log st1) rq in
      (match o with Answers r => classify r | Fails => Raise TransportError end,
       set_log (log st1 ++ [Exchange login rq o]) st1)
  | (Raise e, st1) => (Raise e, st1)
  end.
Proof.
  unfold send, mbind, M_bind, bind, httpx_request, lift.
  destruct (update_headers h st) as [[hh|e] st1]; [|done].
  simpl. by destruct (net E (log st1) _).
Qed.

(** With [login=True] the two checks are skipped. *)
Lemma checks_login st : checks E true st = (Return tt, st).
Proof.
  unfold checks, mbind, M_bind, bind, get_state. simpl.
  by rewrite andb_false_r.
Qed.

Lemma _make_request_login m u h p d st :
  _make_request E m u h p d true st = send E m u h p d true st.
Proof.
  unfold _make_request, mbind, M_bind, bind. by rewrite checks_login.
Qed.

(** What [send] leaves alone, and what it adds to the history. *)
Lemma send_frame m u h p d login st res st' :
  send E m u h p d login st = (res, st') →
  config st' = config st ∧ api_headers st' = api_headers st ∧
  (log st' = log st ∨
   ∃ x, log st' = log st ++ [x] ∧ login_flag x = login ∧ target (sent x) = u).
Proof.
  rewrite send_run.
  destruct (update_headers h st) as [[hh|e] st1] eqn:Hu;
    apply update_headers_frame in Hu as (Hc & Ha & Hl & _).
  - intros [= <- <-]. simpl. rewrite Hc, Ha, Hl. split_and!; [done..|].
    right. eexists. split_and!; done.
  - intros [= <- <-]. auto.
Qed.

End Dispatcher.

(** ** No call removes a key from the session state *)

Section Keeps.

Context (E : env).

Lemma keeps_ret {A} (a : A) : keeps (mret a).
Proof. intros st. done. Qed.

Lemma keeps_raise {A} e : keeps (raise e : M A).
Proof. intros st. done. Qed.

Lemma keeps_lift {A} (r : result A) : keeps (lift r).
Proof. intros st. done. Qed.

Lemma keeps_get_state : keeps get_state.
Proof. intros st. done. Qed.

Lemma keeps_bind {A B} (m : M A) (k : A → M B) :
  keeps m → (∀ a, keeps (k a)) → keeps (m ≫= k).
Proof.
  intros Hm Hk st. unfold mbind, M_bind, bind.
  specialize (Hm st). destruct (m st) as [[a|e] st1]; simpl in *; [|done].
  etrans; [exact Hm|]. apply Hk.
Qed.

Lemma keeps_merge (r : gmap string json) :
  keeps (modify (λ st, set_config (dict_update (config st) r) st)).
Proof.
  intros st. simpl. unfold dict_update. rewrite dom_union_L. set_solver.
Qed.

Lemma keeps_set_api_headers f :
  keeps (modify (λ st, set_api_headers (f st) st)).
Proof. intros st. done. Qed.

Lemma keeps_set_stdout f :
  keeps (modify (λ st, set_stdout (f st) st)).
Proof. intros st. done. Qed.

Lemma keeps_if {A} (b : bool) (m1 m2 : M A) :
  keeps m1 → keeps m2 → keeps (if b then m1 else m2).
Proof. by destruct b. Qed.

Lemma keeps_cms_get k : keeps (cms_get k).
Proof.
  intros st. unfold cms_get. by repeat case_match.
Qed.

Lemma keeps_send m u h p d login : keeps (send E m u h p d login).
Proof.
  intros st. destruct (send E m u h p d login st) as [res st'] eqn:Hs.
  apply send_frame in Hs as (Hc & _). simpl. by rewrite Hc.
Qed.

Create HintDb keeps discriminated.

Hint Resolve keeps_ret keeps_raise keeps_lift keeps_get_state keeps_merge
  keeps_set_api_headers keeps_set_stdout keeps_cms_get keeps_send : keeps.
Hint Extern 2 (keeps (_ ≫= _)) => apply keeps_bind; [|intros ?] : keeps.
Hint Extern 2 (keeps (if _ then _ else _)) => apply keeps_if : keeps.
Hint Extern 3 (keeps (match ?x with _ => _ end)) => destruct x : keeps.

Lemma keeps_token_step : keeps (token_step E).
Proof. unfold token_step. auto 10 with keeps. Qed.

Lemma keeps_index_step : keeps (index_step E).
Proof. unfold index_step. auto with keeps. Qed.

Lemma keeps_profile_step : keeps (profile_step E).
Proof. unfold profile_step. auto with keeps. Qed.

Hint Resolve keeps_token_step keeps_index_step keeps_profile_step : keeps.

Lemma keeps__login : keeps (_login E).
Proof. unfold _login. auto with keeps. Qed.

Lemma keeps__update_session : keeps (_update_session E).
Proof.
  intros st. unfold _update_session.
  repeat case_match; try done. apply keeps__login.
Qed.

Hint Resolve keeps__login keeps__update_session : keeps.

Lemma keeps_checks login : keeps (checks E login).
Proof. unfold checks. auto 10 with keeps. Qed.

Hint Resolve keeps_checks : keeps.

Lemma keeps__make_request m u h p d login :
  keeps (_make_request E m u h p d login).
Proof. unfold _make_request. auto with keeps. Qed.

Hint Resolve keeps__make_request : keeps.

Lemma keeps_httpx_request login rq : keeps (httpx_request E login rq).
Proof. intros st. unfold httpx_request. by case_match. Qed.

Hint Resolve keeps_httpx_request : keeps.

Lemma keeps_run c : keeps (run E c).
Proof.
  destruct c; simpl;
    unfold start, search, get_series, get_seasons, get_episodes, get_streams,
      get_similar, news_feed, browse, get_formats, signed_params, many, one;
    auto 20 with keeps.
Qed.

Lemma run_all_keeps cs st :
  dom (config st) ⊆ dom (config (run_all E cs st)).
Proof.
  revert st. induction cs as [|c cs IH]; intros st; simpl; [done|].
  etrans; [apply (keeps_run c)|]. apply IH.
Qed.

Lemma run_all_complete cs st :
  complete (config st) → complete (config (run_all E cs st)).
Proof.
  intros [Ha Hc]. pose proof (run_all_keeps cs st) as Hk.
  split; apply elem_of_dom, Hk, elem_of_dom; done.
Qed.

End Keeps.

(** ** The login sequence *)

Section Login.

Context (E : env).

Implicit Types (st : state) (x : exchange) (b : gmap string json).

(** A step that fetches a document with the shared default headers and
    merges it into the session state: one HTTP call, always. *)
Lemma fetch_step e st res st' :
  (r ← send E "GET" (Const e) Omitted None None true;
   modify (λ st, set_config (dict_update (config st) r) st)) st = (res, st') →
  ∃ x, log st' = log st ++ [x] ∧ login_flag x = true ∧
       target (sent x) = Const e ∧
       api_headers st' = api_headers st ∧ store st' = store st ∧
       default_headers st' = dict_update (default_headers st) (api_headers st) ∧
       match res with
       | Return _ =>
           ∃ r b, got x = Answers r ∧ classify r = Return b ∧
                  config st' = dict_update (config st) b
       | Raise _ => config st' = config st
       end.
Proof.
  unfold mbind, M_bind, bind. rewrite send_run. simpl.
  destruct (net E (log st) _) as [r|] eqn:Hn.
  - destruct (classify r) as [b|e'] eqn:Hc; intros [= <- <-]; simpl;
      eexists; (split; [reflexivity|]); simpl;
      split_and!; try done.
    by exists r, b.
  - intros [= <- <-]. simpl. eexists. by split; [reflexivity|].
Qed.

Lemma index_step_spec st res st' :
  index_step E st = (res, st') →
  ∃ x, log st' = log st ++ [x] ∧ login_flag x = true ∧
       target (sent x) = Const INDEX_ENDPOINT ∧
       api_headers st' = api_headers st ∧ store st' = store st ∧
       default_headers st' = dict_update (default_headers st) (api_headers st) ∧
       match res with
       | Return _ =>
           ∃ r b, got x = Answers r ∧ classify r = Return b ∧
                  config st' = dict_update (config st) b
       | Raise _ => config st' = config st
       end.
Proof. apply fetch_step. Qed.

Lemma profile_step_spec st res st' :
  profile_step E st = (res, st') →
  ∃ x, log st' = log st ++ [x] ∧ login_flag x = true ∧
       target (sent x) = Const PROFILE_ENDPOINT ∧
       api_headers st' = api_headers st ∧ store st' = store st ∧
       default_headers st' = dict_update (default_headers st) (api_headers st) ∧
       match res with
       | Return _ =>
           ∃ r b, got x = Answers r ∧ classify r = Return b ∧
                  config st' = dict_update (config st) b
       | Raise _ => config st' = config st
       end.
Proof. apply fetch_step. Qed.

(** The token step: one HTTP call, the token request; its body is merged
    and the bearer entry written to [self.api_headers] when it succeeds. *)
Lemma token_step_spec st res st' :
  token_step E st = (res, st') →
  ∃ x, log st' = log st ++ [x] ∧ is_token_request x = true ∧
       store st' = store st ∧ default_headers st' = default_headers st ∧
       match res with
       | Return _ =>
           ∃ r b, got x = Answers r ∧ classify r = Return b ∧
                  config st' = dict_update (config st) b ∧
                  api_headers st' =
                    dict_update (api_headers st)
                      {[ "Authorization" :=
                           [Val (dict_get "token_type" b); Lit " ";
                            Val (dict_get "access_token" b)] ]}
       | Raise _ => config st' = config st ∧ api_headers st' = api_headers st
       end.
Proof.
  unfold token_step, mbind, M_bind, bind, get_state. rewrite send_run. simpl.
  destruct (net E (log st) _) as [r|] eqn:Hn.
  - destruct (classify r) as [b|e'] eqn:Hc; intros [= <- <-]; simpl;
      eexists; (split; [reflexivity|]); simpl;
      split_and!; try done.
    by exists r, b.
  - intros [= <- <-]. simpl. eexists. by split; [reflexivity|].
Qed.

(** The four ways a login ends: at its token step, at its index step, at
    its profile step, each with the bodies merged so far left in the
    session state, or with all three bodies merged. *)
Lemma _login_cases st res st' :
  _login E st = (res, st') →
  store st' = store st ∧
  ∃ x1, is_token_request x1 = true ∧
    ((∃ e, res = Raise e ∧ log st' = log st ++ [x1] ∧
           config st' = config st ∧ api_headers st' = api_headers st) ∨
     (∃ e b1 x2, res = Raise e ∧ answered x1 b1 ∧
           log st' = log st ++ [x1; x2] ∧
           login_flag x2 = true ∧ target (sent x2) = Const INDEX_ENDPOINT ∧
           config st' = dict_update (config st) b1) ∨
     (∃ e b1 b2 x2 x3, res = Raise e ∧ answered x1 b1 ∧ answered x2 b2 ∧
           log st' = log st ++ [x1; x2; x3] ∧
           login_flag x2 = true ∧ target (sent x2) = Const INDEX_ENDPOINT ∧
           login_flag x3 = true ∧ target (sent x3) = Const PROFILE_ENDPOINT ∧
           config st' = dict_update (dict_update (config st) b1) b2) ∨
     (∃ b1 b2 b3 x2 x3, res = Return tt ∧
           answered x1 b1 ∧ answered x2 b2 ∧ answered x3 b3 ∧
           log st' = log st ++ [x1; x2; x3] ∧
           login_flag x2 = true ∧ target (sent x2) = Const INDEX_ENDPOINT ∧
           login_flag x3 = true ∧ target (sent x3) = Const PROFILE_ENDPOINT ∧
           config st' =
             dict_update (dict_update (dict_update (config st) b1) b2) b3)).
Proof.
  unfold _login, mbind, M_bind, bind.
  destruct (token_step E st) as [[[]|e1] s1] eqn:H1;
    apply token_step_spec in H1 as (x1 & Hl1 & Ht1 & Hs1 & _ & H1).
  2:{ intros [= <- <-]. destruct H1 as [Hc Ha]. split; [done|].
      exists x1. split; [done|]. left. by exists e1. }
  destruct H1 as (r1 & b1 & Hg1 & Hb1 & Hc1 & _).
  destruct (index_step E s1) as [[[]|e2] s2] eqn:H2;
    apply index_step_spec in H2 as (x2 & Hl2 & Hf2 & Ht2 & _ & Hs2 & _ & H2).
  2:{ intros [= <- <-]. split; [congruence|].
      exists x1. split; [done|]. right; left. exists e2, b1, x2.
      rewrite Hl2, Hl1, <- app_assoc, H2, Hc1. split_and!; try done.
      by exists r1. }
  destruct H2 as (r2 & b2 & Hg2 & Hb2 & Hc2).
  destruct (profile_step E s2) as [[[]|e3] s3] eqn:H3;
    apply profile_step_spec in H3 as (x3 & Hl3 & Hf3 & Ht3 & _ & Hs3 & _ & H3);
    intros [= <- <-]; (split; [congruence|]);
    exists x1; (split; [done|]); right; right.
  - right. destruct H3 as (r3 & b3 & Hg3 & Hb3 & Hc3).
    exists b1, b2, b3, x2, x3.
    rewrite Hl3, Hl2, Hl1, <- !app_assoc, Hc3, Hc2, Hc1.
    split_and!; try done; eexists; eauto.
  - left. exists e3, b1, b2, x2, x3.
    rewrite Hl3, Hl2, Hl1, <- !app_assoc, H3, Hc2, Hc1.
    split_and!; try done; eexists; eauto.
Qed.

(** What a login adds to the history: the token request, then requests of
    the same login, none of them a token request. *)
Lemma _login_trace st res st' :
  _login E st = (res, st') →
  ∃ x pre, log st' = log st ++ x :: pre ∧ is_token_request x = true ∧
    Forall (λ y, login_flag y = true ∧ is_token_request y = false) pre.
Proof.
  assert (Hno : ∀ y e, login_flag y = true → target (sent y) = Const e →
                e ≠ TOKEN_ENDPOINT →
                login_flag y = true ∧ is_token_request y = false).
  { intros y e Hf Ht He. split; [done|]. unfold is_token_request.
    rewrite Hf, Ht. by destruct e. }
  intros H. apply _login_cases in H as (_ & x1 & Hx1 & H). exists x1.
  destruct H as [(e & _ & -> & _)|[(e & b1 & x2 & _ & _ & -> & ? & ? & _)|
    [(e & b1 & b2 & x2 & x3 & _ & _ & _ & -> & ? & ? & ? & ? & _)|
     (b1 & b2 & b3 & x2 & x3 & _ & _ & _ & _ & -> & ? & ? & ? & ? & _)]]].
  - exists []. by split_and!.
  - exists [x2]. split_and!; [done..|]. repeat constructor; by eapply Hno.
  - exists [x2; x3]. split_and!; [done..|]. repeat constructor; by eapply Hno.
  - exists [x2; x3]. split_and!; [done..|]. repeat constructor; by eapply Hno.
Qed.

(** A step that raises has not been answered with a body the dispatcher
    returns. *)
Lemma fetch_step_raises e st ex st' :
  (r ← send E "GET" (Const e) Omitted None None true;
   modify (λ st, set_config (dict_update (config st) r) st)) st
    = (Raise ex, st') →
  ∀ x b, last (log st') = Some x → ¬ answered x b.
Proof.
  unfold mbind, M_bind, bind. rewrite send_run. simpl.
  destruct (net E (log st) _) as [r|] eqn:Hn.
  - destruct (classify r) as [b'|e'] eqn:Hc; [done|].
    intros [= <- <-] x b. simpl. rewrite last_snoc. intros [= <-].
    intros (r' & Hg & Hb). simpl in Hg. congruence.
  - intros [= <- <-] x b. simpl. rewrite last_snoc. intros [= <-].
    by intros (r' & Hg & _).
Qed.

Lemma token_step_raises st ex st' :
  token_step E st = (Raise ex, st') →
  ∀ x b, last (log st') = Some x → ¬ answered x b.
Proof.
  unfold token_step, mbind, M_bind, bind, get_state. rewrite send_run. simpl.
  destruct (net E (log st) _) as [r|] eqn:Hn.
  - destruct (classify r) as [b'|e'] eqn:Hc; [done|].
    intros [= <- <-] x b. simpl. rewrite last_snoc. intros [= <-].
    intros (r' & Hg & Hb). simpl in Hg. congruence.
  - intros [= <- <-] x b. simpl. rewrite last_snoc. intros [= <-].
    by intros (r' & Hg & _).
Qed.

(** A login that raises ends on a request that got no such answer. *)
Lemma _login_raises st ex st' :
  _login E st = (Raise ex, st') →
  ∀ x b, last (log st') = Some x → ¬ answered x b.
Proof.
  unfold _login. unfold mbind at 1 2, M_bind at 1 2, bind at 1 2.
  destruct (token_step E st) as [[[]|e1] s1] eqn:H1.
  - destruct (index_step E s1) as [[[]|e2] s2] eqn:H2.
    + intros H3. by eapply fetch_step_raises.
    + intros [= <- <-]. by eapply fetch_step_raises.
  - intros [= <- <-]. by eapply token_step_raises.
Qed.

End Login.

(** ** Expiry gating *)

Section Expiry.

Context (E : env).

Implicit Types (st : state) (x y : exchange) (l : list exchange).

Lemma logins_app l1 l2 : logins (l1 ++ l2) = logins l1 + logins l2.
Proof. unfold logins. by rewrite filter_app, length_app. Qed.

Lemma logins_none l :
  Forall (λ y, is_token_request y = false) l → logins l = 0.
Proof.
  unfold logins. induction 1 as [|y l Hy _ IH]; [done|].
  rewrite filter_cons_False; [done|]. by rewrite Hy.
Qed.

Lemma logins_one x : is_token_request x = true → logins [x] = 1.
Proof. intros Hx. unfold logins. by rewrite filter_cons_True. Qed.

Lemma not_login_not_token y : login_flag y = false → is_token_request y = false.
Proof. unfold is_token_request. by intros ->. Qed.

(** A session state with a [cms] block passes the first check. *)
Lemma checks_with_cms st cms :
  config st !! "cms" = Some cms →
  checks E false st = _update_session E st.
Proof.
  intros Hc. unfold checks, mbind, M_bind, bind, get_state.
  rewrite bool_decide_eq_false_2; [done|].
  intros He. by rewrite He, lookup_empty in Hc.
Qed.

Lemma _update_session_expired st cms expires t :
  config st !! "cms" = Some cms →
  subscript cms "expires" = Return expires →
  str_to_date E expires = Return t →
  (t < get_date E (log st))%Z →
  _update_session E st = _login E st.
Proof.
  intros Hc He Ht Hlt. unfold _update_session. rewrite Hc, He. simpl.
  rewrite Ht. by rewrite (proj2 (Z.gtb_lt _ _) Hlt).
Qed.

Lemma _update_session_valid st cms expires t :
  config st !! "cms" = Some cms →
  subscript cms "expires" = Return expires →
  str_to_date E expires = Return t →
  (get_date E (log st) ≤ t)%Z →
  _update_session E st = (Return tt, st).
Proof.
  intros Hc He Ht Hle. unfold _update_session. rewrite Hc, He. simpl.
  rewrite Ht. destruct (Z.gtb_spec (get_date E (log st)) t); [lia|done].
Qed.

(** C1, as the code has it: with a [cms] block in the session state whose
    [expires] parses to [t], a non-login request starts the login sequence
    if and only if [t] is strictly before the current time.  When it is,
    the request is [_login] followed by the request itself: the history
    grows by the token request, then the rest of that one login, then the
    original request if the login succeeded.  When [t] is now or later, the
    request is sent at once and the history grows by no login request. *)
Theorem expiry_gating st m u h p d cms expires t :
  config st !! "cms" = Some cms →
  subscript cms "expires" = Return expires →
  str_to_date E expires = Return t →
  ((t < get_date E (log st))%Z →
     _make_request E m u h p d false st
       = (_login E;; send E m u h p d false) st ∧
     ∃ x pre own,
       log (_make_request E m u h p d false st).2 = log st ++ x :: pre ++ own ∧
       is_token_request x = true ∧
       Forall (λ y, login_flag y = true) pre ∧
       (own = [] ∨ ∃ y, own = [y] ∧ login_flag y = false ∧ target (sent y) = u) ∧
       logins (x :: pre ++ own) = 1) ∧
  ((get_date E (log st) ≤ t)%Z →
     _make_request E m u h p d false st = send E m u h p d false st ∧
     ∃ own,
       log (_make_request E m u h p d false st).2 = log st ++ own ∧
       (own = [] ∨ ∃ y, own = [y] ∧ login_flag y = false ∧ target (sent y) = u) ∧
       logins own = 0).
Proof.
  intros Hc He Ht. split.
  - intros Hlt.
    assert (Heq : _make_request E m u h p d false st
                  = (_login E;; send E m u h p d false) st).
    { unfold _make_request, mbind, M_bind, bind.
      by rewrite (checks_with_cms _ _ Hc),
        (_update_session_expired _ _ _ _ Hc He Ht Hlt). }
    split; [done|]. rewrite Heq. unfold mbind, M_bind, bind.
    destruct (_login E st) as [res s1] eqn:Hl.
    apply _login_trace in Hl as (x & pre & Hlog & Hx & Hpre).
    assert (Hpre1 : Forall (λ y, login_flag y = true) pre).
    { eapply Forall_impl; [exact Hpre|]. by intros y [? _]. }
    assert (Hpre0 : logins pre = 0).
    { apply logins_none. eapply Forall_impl; [exact Hpre|]. by intros y [_ ?]. }
    destruct res as [[]|e].
    + destruct (send E m u h p d false s1) as [res' s2] eqn:Hs.
      apply send_frame in Hs as (_ & _ & [Hl2|(y & Hl2 & Hy & Hu)]); simpl.
      * exists x, pre, []. rewrite Hl2, Hlog, app_nil_r.
        split_and!; [done|done|done|by left|].
        change (x :: pre) with ([x] ++ pre).
        by rewrite logins_app, (logins_one _ Hx), Hpre0.
      * exists x, pre, [y]. rewrite Hl2, Hlog, <- app_assoc.
        split_and!; [done|done|done|right; by exists y|].
        change (x :: pre ++ [y]) with ([x] ++ pre ++ [y]).
        rewrite !logins_app, (logins_one _ Hx), Hpre0.
        rewrite (logins_none [y]); [done|].
        repeat constructor. by apply not_login_not_token.
    + simpl. exists x, pre, []. rewrite Hlog, app_nil_r.
      split_and!; [done|done|done|by left|].
      change (x :: pre) with ([x] ++ pre).
      by rewrite logins_app, (logins_one _ Hx), Hpre0.
  - intros Hle.
    assert (Heq : _make_request E m u h p d false st
                  = send E m u h p d false st).
    { unfold _make_request, mbind, M_bind, bind.
      by rewrite (checks_with_cms _ _ Hc),
        (_update_session_valid _ _ _ _ Hc He Ht Hle). }
    split; [done|]. rewrite Heq.
    destruct (send E m u h p d false st) as [res' s2] eqn:Hs.
    apply send_frame in Hs as (_ & _ & [Hl2|(y & Hl2 & Hy & Hu)]); simpl.
    + exists []. rewrite Hl2, app_nil_r. split_and!; [done|by left|done].
    + exists [y]. split_and!; [done|right; by exists y|].
      apply logins_none. repeat constructor. by apply not_login_not_token.
Qed.

End Expiry.

(** ** The session state across calls *)

Section SessionState.

Context (E : env).

Implicit Types (st : state) (b : gmap string json).

Lemma dict_update_is_Some {V} (d r : gmap string V) k :
  is_Some (dict_update d r !! k) ↔ is_Some (r !! k) ∨ is_Some (d !! k).
Proof. unfold dict_update. apply lookup_union_is_Some. Qed.

Lemma merged_keys (bs : list (gmap string json)) :
  ∀ cfg k,
    is_Some (cfg !! k) ∨ (∃ b, b ∈ bs ∧ is_Some (b !! k)) →
    is_Some (foldl dict_update cfg bs !! k).
Proof.
  induction bs as [|b0 bs IH]; intros cfg k; simpl.
  - intros [?|(b & Hb & _)]; [done|]. by apply elem_of_nil in Hb.
  - intros H. apply IH. destruct H as [H|(b & Hb & Hk)].
    + left. apply dict_update_is_Some. by right.
    + apply elem_of_cons in Hb as [->|Hb].
      * left. apply dict_update_is_Some. by left.
      * right. by exists b.
Qed.

(** C2, as the code has it: the session state of a new client is empty; a
    login merges into it, in order, the bodies of its steps that succeed:
    all three when it returns; when it raises, the bodies of all its
    requests but the last, which is the one that failed, and these are not
    taken back: their keys are in the state the login leaves, a partial
    state; after a login that returns with a token body that holds
    [access_token] and an index body that holds [cms] the state is
    complete; and no call removes a key, so that a complete state stays
    complete after any sequence of calls. *)
Theorem session_state_after_calls st :
  (∀ email password locale dflt sto hist out,
     config (__init__ email password locale dflt sto hist out) = ∅) ∧
  (∀ cs, complete (config st) → complete (config (run_all E cs st))) ∧
  (∀ res st', _login E st = (res, st') →
     ∃ new bs,
       log st' = log st ++ new ∧
       Forall2 answered (take (List.length bs) new) bs ∧
       config st' = foldl dict_update (config st) bs ∧
       (∀ b k, b ∈ bs → is_Some (b !! k) → is_Some (config st' !! k)) ∧
       match res with
       | Return _ => List.length bs = 3 ∧ List.length new = 3
       | Raise _ =>
           List.length bs < 3 ∧ List.length new = S (List.length bs) ∧
           ∀ x b, last new = Some x → ¬ answered x b
       end ∧
       (∀ b1 b2 b3, bs = [b1; b2; b3] →
          is_Some (b1 !! "access_token") → is_Some (b2 !! "cms") →
          complete (config st'))).
Proof.
  split; [done|]. split; [intros cs; apply run_all_complete|].
  intros res st' H.
  assert (Hlast : ∀ ex new, res = Raise ex → log st' = log st ++ new →
            new ≠ [] → ∀ x b, last new = Some x → ¬ answered x b).
  { intros ex new -> Hl Hne x b Hx.
    apply (_login_raises E _ _ _ H). by rewrite Hl, last_app, Hx. }
  assert (Hkeys : ∀ bs, config st' = foldl dict_update (config st) bs →
            ∀ b k, b ∈ bs → is_Some (b !! k) → is_Some (config st' !! k)).
  { intros bs -> b k Hb Hk. apply merged_keys. right. by exists b. }
  apply _login_cases in H as (_ & x1 & _ & H).
  destruct H as [(e & -> & Hl & Hc & _)|[(e & b1 & x2 & -> & A1 & Hl & _ & _ & Hc)|
    [(e & b1 & b2 & x2 & x3 & -> & A1 & A2 & Hl & _ & _ & _ & _ & Hc)|
     (b1 & b2 & b3 & x2 & x3 & -> & A1 & A2 & A3 & Hl & _ & _ & _ & _ & Hc)]]].
  - exists [x1], []. simpl.
    split_and!; [done|constructor|done|by apply (Hkeys [])|lia|done| |done].
    exact (Hlast e [x1] eq_refl Hl ltac:(done)).
  - exists [x1; x2], [b1]. simpl.
    split_and!; [done|by repeat constructor|done|by apply (Hkeys [b1])
                |lia|done| |done].
    exact (Hlast e [x1; x2] eq_refl Hl ltac:(done)).
  - exists [x1; x2; x3], [b1; b2]. simpl.
    split_and!; [done|by repeat constructor|done|by apply (Hkeys [b1; b2])
                |lia|done| |done].
    exact (Hlast e [x1; x2; x3] eq_refl Hl ltac:(done)).
  - exists [x1; x2; x3], [b1; b2; b3]. simpl.
    split_and!; [done|by repeat constructor|done|by apply (Hkeys [b1; b2; b3])
                |done|done|].
    intros ? ? ? [= <- <- <-] Ha Hcms. rewrite Hc. split.
    + apply dict_update_is_Some. right. apply dict_update_is_Some. right.
      apply dict_update_is_Some. by left.
    + apply dict_update_is_Some. right. apply dict_update_is_Some. by left.
Qed.

End SessionState.

(** ** The unauthenticated guard *)

Section Guard.

Context (E : env).

Implicit Types (st : state).

Lemma _make_request_not_started m u h p d st :
  config st = ∅ →
  _make_request E m u h p d false st = (Raise NotStarted, st).
Proof.
  intros He. unfold _make_request, checks, mbind, M_bind, bind, get_state.
  by rewrite bool_decide_eq_true_2.
Qed.

Lemma cms_get_empty k st : config st = ∅ → cms_get k st = (Return JNull, st).
Proof. intros He. unfold cms_get. by rewrite He, lookup_empty. Qed.

Lemma signed_params_empty st0 extra st :
  config st = ∅ → ∃ ps, signed_params st0 extra st = (Return ps, st).
Proof.
  intros He. unfold signed_params, mbind, M_bind, bind.
  rewrite !(cms_get_empty _ _ He). by eexists.
Qed.

(** C3, as the code has it: on a client whose session state is empty,
    every public method that reaches the dispatcher ([search],
    [get_series], [get_seasons], [get_episodes], [get_similar],
    [news_feed], [browse], and [get_streams] on an episode whose href holds
    a stream id) raises the error "Client is not started yet!" and leaves
    the whole state, the history of HTTP calls included, as it was;
    [get_formats] has no such guard: it issues its GET whatever the
    session state. *)
Theorem unauthenticated_guard st :
  (∀ c, config st = ∅ → guarded c = true →
        run E c st = (Raise NotStarted, st)) ∧
  (∀ url,
     log (run E (GetFormats url) st).2 =
       log st ++ [Exchange false (Request "GET" (Str url) ∅ None None)
                    (net E (log st) (Request "GET" (Str url) ∅ None None))]).
Proof.
  split.
  - intros c He Hg. destruct c; try discriminate; simpl;
      unfold search, get_series, get_seasons, get_episodes, get_streams,
        get_similar, news_feed, browse, mbind, M_bind, bind, get_state.
    + by rewrite _make_request_not_started.
    + rewrite (cms_get_empty _ _ He).
      destruct (signed_params_empty st ∅ st He) as [ps ->].
      by rewrite _make_request_not_started.
    + rewrite (cms_get_empty _ _ He).
      destruct (signed_params_empty st {[ "series_id" := JStr series_id ]} st He)
        as [ps ->].
      by rewrite _make_request_not_started.
    + rewrite (cms_get_empty _ _ He).
      destruct (signed_params_empty st {[ "season_id" := JStr season_id ]} st He)
        as [ps ->].
      by rewrite _make_request_not_started.
    + simpl in Hg. destruct (search_stream_id href); [|discriminate].
      rewrite (cms_get_empty _ _ He).
      destruct (signed_params_empty st ∅ st He) as [ps ->].
      by rewrite _make_request_not_started.
    + by rewrite _make_request_not_started.
    + by rewrite _make_request_not_started.
    + by rewrite _make_request_not_started.
  - intros url. simpl. unfold get_formats, mbind, M_bind, bind, httpx_request.
    by destruct (net E (log st) _).
Qed.

End Guard.

(** ** Classification of responses *)

Section Classification.

Context (E : env).

Implicit Types (st : state) (r : response) (body : gmap string json).

(** A call that gets its answer returns or raises what [classify] makes of
    the answer. *)
Lemma receives_result m u h p d login st r st' :
  receives E m u h p d login st r st' →
  _make_request E m u h p d login st = (classify r, st').
Proof.
  intros (st0 & hh & st1 & Hc & Hu & Hn & ->).
  unfold _make_request, mbind, M_bind, bind. rewrite Hc, send_run, Hu.
  simpl. by rewrite Hn.
Qed.

Lemma classify_Return r body :
  classify r = Return body → json_body r = Some body.
Proof.
  unfold classify, check_status.
  destruct (json_body r) as [b|]; [|done].
  repeat case_match; congruence.
Qed.

(** A call that returns has got an answer, and returns its decoded body. *)
Lemma returns_receives m u h p d login st body st' :
  _make_request E m u h p d login st = (Return body, st') →
  ∃ r, receives E m u h p d login st r st' ∧ json_body r = Some body.
Proof.
  unfold _make_request, mbind, M_bind, bind.
  destruct (checks E login st) as [[[]|e] st0] eqn:Hc; [|done].
  rewrite send_run.
  destruct (update_headers h st0) as [[hh|e] st1] eqn:Hu; [|done].
  simpl. destruct (net E (log st1) _) as [r|] eqn:Hn; [|done].
  intros [= Hcl <-]. exists r. split; [|by apply classify_Return].
  exists st0, hh, st1. by rewrite Hn.
Qed.

Lemma dict_has_Some k body v : body !! k = Some v → dict_has k body = true.
Proof. unfold dict_has. by intros ->. Qed.

Lemma dict_has_None k body : body !! k = None → dict_has k body = false.
Proof. unfold dict_has. by intros ->. Qed.

(** C5: a body whose [error] is [invalid_grant] makes the dispatcher raise
    the invalid-credentials error, with the status code, also when the body
    holds a [message] and a [code]: the grant check comes first, and
    nothing else is looked at. *)
Theorem grant_error_first m u h p d login st r st' body msg c :
  receives E m u h p d login st r st' →
  json_body r = Some body →
  body !! "error" = Some (JStr "invalid_grant") →
  body !! "message" = Some msg →
  body !! "code" = Some c →
  _make_request E m u h p d login st =
    (Raise (CrunchyrollError
       [Lit "["; Int (status_code r); Lit "] Invalid login credentials."]),
     st').
Proof.
  intros Hr Hb He _ _. rewrite (receives_result _ _ _ _ _ _ _ _ _ Hr).
  unfold classify. rewrite Hb, (dict_has_Some _ _ _ He).
  unfold dict_get. by rewrite He.
Qed.

(** C4, as the code has it: a body with a [message] and a [code] and no
    [error] key makes the dispatcher raise the API error, with that message
    and the status code; a body with an [error] other than [invalid_grant]
    is not looked at for [message] and [code]: the status check alone
    decides, and with status 200 the body is returned. *)
Theorem api_error_classification m u h p d login st r st' body msg c :
  receives E m u h p d login st r st' →
  json_body r = Some body →
  body !! "message" = Some msg →
  body !! "code" = Some c →
  (body !! "error" = None →
   _make_request E m u h p d login st =
     (Raise (CrunchyrollError
        [Lit "["; Int (status_code r); Lit "] Error occured: "; Val msg]),
      st')) ∧
  (∀ err, body !! "error" = Some err → json_eq_str err "invalid_grant" = false →
   _make_request E m u h p d login st = (check_status r body, st')).
Proof.
  intros Hr Hb Hm Hc. rewrite (receives_result _ _ _ _ _ _ _ _ _ Hr).
  unfold classify. rewrite Hb. split.
  - intros He.
    rewrite (dict_has_None _ _ He), (dict_has_Some _ _ _ Hm),
      (dict_has_Some _ _ _ Hc).
    unfold dict_get. by rewrite Hm.
  - intros err He Hne. rewrite (dict_has_Some _ _ _ He).
    unfold dict_get. rewrite He. simpl. by rewrite Hne.
Qed.

(** C8: a [search] with [raw_json=True] that returns, returns the decoded
    body of the answer to its request, as it is. *)
Theorem search_raw_json query n st v st' :
  search E query n true st = (Return v, st') →
  ∃ r body,
    receives E "GET" (Const SEARCH_ENDPOINT) Omitted
      (Some {[ "q" := JStr query;
               "n" := JStr (Py.str_of_int n);
               "locale" := JStr (locale st) ]})
      None false st r st' ∧
    json_body r = Some body ∧
    v = Raw body.
Proof.
  unfold search, mbind, M_bind, bind, get_state.
  destruct (_make_request E _ _ _ _ _ _ st) as [[body|e] s1] eqn:Hm; [|done].
  simpl. intros [= <- <-].
  apply returns_receives in Hm as (r & Hr & Hb). by exists r, body.
Qed.

End Classification.

(** ** The headers argument *)

Section Headers.

Context (E : env).

Implicit Types (st : state) (hs : gmap string fstr).

Lemma dict_update_lookup {V} (d r : gmap string V) k :
  dict_update d r !! k =
    match r !! k with Some v => Some v | None => d !! k end.
Proof.
  unfold dict_update. destruct (r !! k) as [v|] eqn:Hr.
  - by apply lookup_union_Some_l.
  - by rewrite lookup_union_r.
Qed.

Lemma send_headers m u h p d login st0 :
  let st' := (send E m u h p d login st0).2 in
  (∀ l h0, h = Passed l → store st0 !! l = Some h0 →
     store st' !! l = Some (dict_update h0 (api_headers st0)) ∧
     (∀ l', l' ≠ l → store st' !! l' = store st0 !! l') ∧
     default_headers st' = default_headers st0 ∧
     ∃ x, log st' = log st0 ++ [x] ∧
          headers (sent x) = dict_update h0 (api_headers st0)) ∧
  (h = Omitted →
     default_headers st' = dict_update (default_headers st0) (api_headers st0) ∧
     store st' = store st0 ∧
     ∃ x, log st' = log st0 ++ [x] ∧ headers (sent x) = default_headers st').
Proof.
  rewrite send_run. split.
  - intros l h0 -> Hl. simpl. rewrite Hl. simpl.
    split_and!; [by rewrite lookup_insert_eq| |done|by eexists].
    intros l' Hne. by rewrite lookup_insert_ne.
  - intros ->. simpl. split_and!; [done..|by eexists].
Qed.

(** C10, as the code has it: a call of the dispatcher that passes its two
    checks, those of lines 39 to 42, writes the
    entries of [self.api_headers] into the dictionary it was given, where
    the caller holds it, over the entries with the same keys, and sends
    the result; a call without the argument does so to the one default
    dictionary, which keeps what earlier calls wrote into it and goes out
    with every such call. *)
Theorem headers_mutated_in_place m u h p d login st st0 :
  checks E login st = (Return tt, st0) →
  let st' := (_make_request E m u h p d login st).2 in
  (∀ l h0, h = Passed l → store st0 !! l = Some h0 →
     store st' !! l = Some (dict_update h0 (api_headers st0)) ∧
     (∀ l', l' ≠ l → store st' !! l' = store st0 !! l') ∧
     default_headers st' = default_headers st0 ∧
     ∃ x, log st' = log st0 ++ [x] ∧
          headers (sent x) = dict_update h0 (api_headers st0)) ∧
  (h = Omitted →
     default_headers st' = dict_update (default_headers st0) (api_headers st0) ∧
     store st' = store st0 ∧
     ∃ x, log st' = log st0 ++ [x] ∧ headers (sent x) = default_headers st') ∧
  (∀ hs k,
     dict_update hs (api_headers st0) !! k =
       match api_headers st0 !! k with
       | Some v => Some v
       | None => hs !! k
       end).
Proof.
  intros Hc. unfold _make_request, mbind, M_bind, bind. rewrite Hc.
  destruct (send_headers m u h p d login st0) as [H1 H2].
  split_and!; [exact H1|exact H2|].
  intros hs k. apply dict_update_lookup.
Qed.

End Headers.

(** ** The playlist parser *)

Section Playlist.

Context (E : env).

Implicit Types (lines todo : list string) (formats : list PlaylistItem)
  (g : groups).

Lemma scan_skip lines i line todo formats :
  PLAYLIST_REG E (Py.strip line) = None →
  scan E lines i (line :: todo) formats = scan E lines (S i) todo formats.
Proof. intros H. simpl. by rewrite H. Qed.

Lemma scan_emit lines i line todo formats g next b w h :
  PLAYLIST_REG E (Py.strip line) = Some g →
  lines !! i = Some next →
  int_group (group1 g) = Return b →
  int_group (group2 g) = Return w →
  int_group (group3 g) = Return h →
  scan E lines i (line :: todo) formats =
    scan E lines (S i) todo
      (formats ++ [MkPlaylistItem (Py.strip next) b w h (group4 g) (group5 g)]).
Proof. intros H Hn H1 H2 H3. simpl. by rewrite H, Hn, H1, H2, H3. Qed.

(** A descriptor on the last line: [lines[i]] is past the end. *)
Lemma scan_last lines i line formats g :
  PLAYLIST_REG E (Py.strip line) = Some g →
  List.length lines ≤ i →
  scan E lines i [line] formats = Raise IndexError.
Proof.
  intros H Hi. simpl. rewrite H.
  by rewrite (proj2 (lookup_ge_None lines i) Hi).
Qed.

(** Whatever comes before it, a descriptor on the last line keeps the loop
    from returning a list. *)
Lemma scan_last_line_raises todo :
  ∀ seen formats line g,
    last todo = Some line →
    PLAYLIST_REG E (Py.strip line) = Some g →
    ∃ e, scan E (seen ++ todo) (S (List.length seen)) todo formats = Raise e.
Proof.
  induction todo as [|a todo IH]; intros seen formats line g Hlast Hg; [done|].
  destruct todo as [|a' todo].
  - injection Hlast as ->. exists IndexError.
    eapply scan_last; [done|]. rewrite length_app. simpl. lia.
  - change (last (a :: a' :: todo)) with (last (a' :: todo)) in Hlast.
    assert (Hnext : ∀ fs, ∃ e,
      scan E (seen ++ a :: a' :: todo) (S (S (List.length seen))) (a' :: todo) fs
        = Raise e).
    { intros fs.
      destruct (IH (seen ++ [a]) fs line g Hlast Hg) as [e He].
      exists e. rewrite <- He, <- app_assoc, length_app. simpl.
      by rewrite Nat.add_1_r. }
    remember (a' :: todo) as rest. simpl.
    destruct (PLAYLIST_REG E (Py.strip a)) as [regesp|]; [|apply Hnext].
    destruct ((seen ++ a :: rest) !! S (List.length seen)); [|by eexists].
    destruct (int_group (group1 regesp)); simpl; [|by eexists].
    destruct (int_group (group2 regesp)); simpl; [|by eexists].
    destruct (int_group (group3 regesp)); simpl; [|by eexists].
    apply Hnext.
Qed.

Lemma formats_of_text_last_line_raises text line g :
  last (Py.split_lines text) = Some line →
  PLAYLIST_REG E (Py.strip line) = Some g →
  ∃ e, formats_of_text E text = Raise e.
Proof.
  intros Hl Hg. unfold formats_of_text.
  apply (scan_last_line_raises (Py.split_lines text) [] [] line g Hl Hg).
Qed.

Lemma split_playlist :
  Py.split_lines Example.playlist =
    [Example.line1; Example.line2; Example.line3; Example.line4].
Proof. by vm_compute. Qed.

Lemma strip_lines :
  Py.strip Example.line1 = Example.line1 ∧
  Py.strip Example.line2 = Example.line2 ∧
  Py.strip Example.line3 = Example.line3 ∧
  Py.strip Example.line4 = Example.line4.
Proof. by vm_compute. Qed.

(** C7: the four-line playlist of the spec parses to two records, in the
    order of their descriptors, with the numbers of the descriptors and,
    for [url], the line that follows each, for every pattern that matches
    the two descriptor lines with those captures and matches neither URL
    line. *)
Theorem playlist_literal_example st url r g1 g3 :
  net E (log st) (Request "GET" (Str url) ∅ None None) = Answers r →
  text r = Example.playlist →
  PLAYLIST_REG E Example.line1 = Some g1 →
  group1 g1 = Some "831200" → group2 g1 = Some "640" → group3 g1 = Some "360" →
  PLAYLIST_REG E Example.line2 = None →
  PLAYLIST_REG E Example.line3 = Some g3 →
  group1 g3 = Some "2145000" → group2 g3 = Some "1920" → group3 g3 = Some "1080" →
  PLAYLIST_REG E Example.line4 = None →
  (get_formats E url st).1 =
    Return (Formats
      [ {| url_ := "http://example.com/360p.m3u8";
           bandwidth := 831200; width := 640; height := 360;
           framerate := group4 g1; codecs := group5 g1 |};
        {| url_ := "http://example.com/1080p.m3u8";
           bandwidth := 2145000; width := 1920; height := 1080;
           framerate := group4 g3; codecs := group5 g3 |} ]).
Proof.
  intros Hn Ht H1 Hb1 Hw1 Hh1 H2 H3 Hb3 Hw3 Hh3 H4.
  destruct strip_lines as (S1 & S2 & S3 & S4).
  unfold get_formats, mbind, M_bind, bind, httpx_request. rewrite Hn. simpl.
  unfold formats_of_text. rewrite Ht, split_playlist.
  erewrite (scan_emit _ 1 Example.line1);
    [|by rewrite S1|reflexivity|by rewrite Hb1|by rewrite Hw1|by rewrite Hh1].
  rewrite scan_skip by by rewrite S2.
  erewrite (scan_emit _ 3 Example.line3);
    [|by rewrite S3|reflexivity|by rewrite Hb3|by rewrite Hw3|by rewrite Hh3].
  rewrite scan_skip by by rewrite S4.
  simpl. by rewrite S2, S4.
Qed.

End Playlist.

(** ** The theorems at work *)

Section Instances.

Import Example.

(** A bundle that expired at second 1000, read at second 1500: one login,
    then the request; a bundle that expires at second 2000, read at second
    1500: the request alone. *)
Lemma expiry_gating_witness :
  (∃ x pre own,
     log (_make_request (world 1500 service) "GET" (Const SEARCH_ENDPOINT)
            Omitted search_params None false (started "1000")).2
       = log (started "1000") ++ x :: pre ++ own ∧
     is_token_request x = true ∧
     Forall (λ y, login_flag y = true) pre ∧
     (own = [] ∨ ∃ y, own = [y] ∧ login_flag y = false ∧
                      target (sent y) = Const SEARCH_ENDPOINT) ∧
     logins (x :: pre ++ own) = 1) ∧
  (∃ own,
     log (_make_request (world 1500 service) "GET" (Const SEARCH_ENDPOINT)
            Omitted search_params None false (started "2000")).2
       = log (started "2000") ++ own ∧
     (own = [] ∨ ∃ y, own = [y] ∧ login_flag y = false ∧
                      target (sent y) = Const SEARCH_ENDPOINT) ∧
     logins own = 0).
Proof.
  split.
  - apply (expiry_gating (world 1500 service) (started "1000") "GET"
             (Const SEARCH_ENDPOINT) Omitted search_params None
             (cms_block "1000") (JStr "1000") 1000);
      by vm_compute.
  - apply (expiry_gating (world 1500 service) (started "2000") "GET"
             (Const SEARCH_ENDPOINT) Omitted search_params None
             (cms_block "2000") (JStr "2000") 2000);
      by vm_compute.
Defined.

(** A bundle that expires at second 1000, read at second 1000: expired, as
    the spec words it, and yet the client sends the request at once, with
    no login. *)
Lemma expiry_at_now_no_relogin :
  let E := world 1000 service in
  let st := started "1000" in
  let st' := (_make_request E "GET" (Const SEARCH_ENDPOINT) Omitted
                search_params None false st).2 in
  config st !! "cms" = Some (cms_block "1000") ∧
  result_bind (subscript (cms_block "1000") "expires") (str_to_date E)
    = Return 1000%Z ∧
  (1000 ≤ get_date E (log st))%Z ∧
  logins (log st') = 0 ∧
  (target ∘ sent) <$> log st' = [Const SEARCH_ENDPOINT].
Proof. by vm_compute. Qed.

(** A complete state after two more calls; and a login on a new client
    whose index step fails: the token body is merged and stays. *)
Lemma session_state_witness :
  complete (config (run_all (world 0 service)
                      [Search "q" 6 true; GetFormats "u"] (started "2000"))) ∧
  ∃ new bs,
    log (_login (world 0 service_index_down) fresh).2 = log fresh ++ new ∧
    Forall2 answered (take (List.length bs) new) bs ∧
    config (_login (world 0 service_index_down) fresh).2
      = foldl dict_update (config fresh) bs ∧
    (∀ b k, b ∈ bs → is_Some (b !! k) →
       is_Some (config (_login (world 0 service_index_down) fresh).2 !! k)) ∧
    (List.length bs < 3 ∧ List.length new = S (List.length bs) ∧
     ∀ x b, last new = Some x → ¬ answered x b) ∧
    (∀ b1 b2 b3, bs = [b1; b2; b3] →
       is_Some (b1 !! "access_token") → is_Some (b2 !! "cms") →
       complete (config (_login (world 0 service_index_down) fresh).2)).
Proof.
  split.
  - apply (session_state_after_calls (world 0 service) (started "2000")).
    split; apply (bool_decide_unpack _); by vm_compute.
  - destruct (session_state_after_calls (world 0 service_index_down) fresh)
      as (_ & _ & H).
    apply (H (Raise (CrunchyrollError
                       [Lit "["; Int 500; Lit "] "; Lit "{}"]))
             (_login (world 0 service_index_down) fresh).2).
    vm_compute; reflexivity.
Defined.

(** The index endpoint is down: [start] raises, and leaves the token body
    in the session state, with no [cms] block; the next call is let
    through by the guard. *)
Lemma partial_state_after_failed_login :
  let E := world 0 service_index_down in
  let st' := (run E Start fresh).2 in
  config fresh = ∅ ∧
  (run E Start fresh).1 =
    Raise (CrunchyrollError [Lit "["; Int 500; Lit "] "; Lit "{}"]) ∧
  config st' !! "access_token" = Some (JStr "tok") ∧
  config st' !! "cms" = None ∧
  (run E (Search "q" 6 true) st').1 = Return (Raw {[ "items" := JArr [] ]}).
Proof. by vm_compute. Qed.

Lemma unauthenticated_guard_witness :
  run (world 0 service) (Search "q" 6 false) fresh = (Raise NotStarted, fresh).
Proof.
  by apply (proj1 (unauthenticated_guard (world 0 service) fresh)).
Defined.

(** [get_formats] on a new client: a GET goes out and a list comes back. *)
Lemma get_formats_unguarded :
  let E := world 0 service in
  config fresh = ∅ ∧
  (∃ l, (run E (GetFormats "u") fresh).1 = Return (Formats l)) ∧
  (target ∘ sent) <$> log (run E (GetFormats "u") fresh).2 = [Str "u"].
Proof. split_and!; [done|by eexists|done]. Qed.

(** [get_streams] on a new client and an episode whose href holds no
    stream id: an [AttributeError], not the guard's error. *)
Lemma get_streams_unguarded :
  config fresh = ∅ ∧
  (run (world 0 service) (GetStreams "/cms/videos/" true) fresh).1
    = Raise AttributeError.
Proof. done. Qed.

(** The token request, answered with [invalid_grant] next to a [message]
    and a [code]: the invalid-credentials error. *)
Lemma grant_error_first_witness :
  _make_request (world 0 service_denied) "POST" (Const TOKEN_ENDPOINT)
    Omitted None None true fresh =
  (Raise (CrunchyrollError [Lit "["; Int 401; Lit "] Invalid login credentials."]),
   (_make_request (world 0 service_denied) "POST" (Const TOKEN_ENDPOINT)
      Omitted None None true fresh).2).
Proof.
  apply (grant_error_first (world 0 service_denied) "POST"
           (Const TOKEN_ENDPOINT) Omitted None None true fresh
           (Response 401 "(json)" (Some denied_body))
           _ denied_body (JStr "denied") (JStr "auth"));
    [|by vm_compute..].
  exists fresh, (dict_update (default_headers fresh) (api_headers fresh)),
    (set_default_headers
       (dict_update (default_headers fresh) (api_headers fresh)) fresh).
  split_and!; by vm_compute.
Defined.

(** A [message] and a [code] and no [error]: the API error. *)
Lemma api_error_classification_witness :
  _make_request (world 0 service_message) "GET" (Const SEARCH_ENDPOINT)
    Omitted search_params None false (started "2000") =
  (Raise (CrunchyrollError
     [Lit "["; Int 404; Lit "] Error occured: "; Val (JStr "not found")]),
   (_make_request (world 0 service_message) "GET" (Const SEARCH_ENDPOINT)
      Omitted search_params None false (started "2000")).2).
Proof.
  apply (api_error_classification (world 0 service_message) "GET"
           (Const SEARCH_ENDPOINT) Omitted search_params None false
           (started "2000")
           (Response 404 "(json)" (Some message_body))
           _ message_body (JStr "not found") (JStr "missing"));
    [|by vm_compute..].
  exists (started "2000"),
    (dict_update (default_headers (started "2000"))
       (api_headers (started "2000"))),
    (set_default_headers
       (dict_update (default_headers (started "2000"))
          (api_headers (started "2000"))) (started "2000")).
  split_and!; by vm_compute.
Defined.

(** An [error] that is not [invalid_grant], next to a [message] and a
    [code], with status 200: no error at all, the body is returned. *)
Lemma error_key_hides_message :
  let E := world 0 service_error in
  let body := error_body in
  net E [] (Request "GET" (Const SEARCH_ENDPOINT)
              (dict_update ∅ (api_headers fresh)) search_params None)
    = Answers (Response 200 "(json)" (Some body)) ∧
  body !! "message" = Some (JStr "try later") ∧
  body !! "code" = Some (JStr "internal") ∧
  body !! "error" = Some (JStr "server_error") ∧
  (_make_request E "GET" (Const SEARCH_ENDPOINT) Omitted search_params None
     false (started "2000")).1 = Return body.
Proof. by vm_compute. Qed.

(** C6, which the code fails: on a playlist that is one descriptor line,
    the line matches, [lines[1]] does not exist, and the read raises
    [IndexError]: the match is not skipped, and the error is not one of the
    parser's own. *)
Theorem descriptor_on_last_line_faults :
  Pattern.stream_inf (Py.strip line1) =
    Some (Groups (Some "831200") (Some "640") (Some "360")
                 (Some "23.976") (Some "avc1,mp4a")) ∧
  Py.split_lines line1 = [line1] ∧
  formats_of_text (world 0 service) line1 = Raise IndexError ∧
  (run (world 0 service) (GetFormats "last") fresh).1 = Raise IndexError.
Proof. by vm_compute. Qed.

Lemma playlist_literal_example_witness :
  (get_formats (world 0 service) "u" fresh).1 =
    Return (Formats
      [ {| url_ := "http://example.com/360p.m3u8";
           bandwidth := 831200; width := 640; height := 360;
           framerate := Some "23.976"; codecs := Some "avc1,mp4a" |};
        {| url_ := "http://example.com/1080p.m3u8";
           bandwidth := 2145000; width := 1920; height := 1080;
           framerate := Some "23.976"; codecs := Some "avc1,mp4a" |} ]).
Proof.
  apply (playlist_literal_example (world 0 service) fresh "u"
           (Response 200 playlist None)
           (Groups (Some "831200") (Some "640") (Some "360")
                   (Some "23.976") (Some "avc1,mp4a"))
           (Groups (Some "2145000") (Some "1920") (Some "1080")
                   (Some "23.976") (Some "avc1,mp4a")));
    by vm_compute.
Defined.

Lemma search_raw_json_witness :
  ∃ r body,
    receives (world 0 service) "GET" (Const SEARCH_ENDPOINT) Omitted
      (Some {[ "q" := JStr "q"; "n" := JStr (Py.str_of_int 6);
               "locale" := JStr (locale (started "2000")) ]})
      None false (started "2000") r
      (search (world 0 service) "q" 6 true (started "2000")).2 ∧
    json_body r = Some body ∧
    Raw {[ "items" := JArr [] ]} = Raw body.
Proof.
  apply (search_raw_json (world 0 service) "q" 6 (started "2000")).
  by vm_compute.
Defined.

(** A caller's dictionary with a user agent of its own, passed to a call
    made with the [login] flag on a new client. *)
Lemma headers_mutated_in_place_witness :
  let mine : gmap string fstr :=
    {[ "User-Agent" := [Lit "mine"]; "Accept" := [Lit "*/*"] ]} in
  let st := set_store {[ 0 := mine ]} fresh in
  let st' := (_make_request (world 0 service) "GET" (Const INDEX_ENDPOINT)
                (Passed 0) None None true st).2 in
  store st' !! 0 = Some (dict_update mine (api_headers st)) ∧
  (∀ l', l' ≠ 0 → store st' !! l' = store st !! l') ∧
  default_headers st' = default_headers st ∧
  ∃ x, log st' = log st ++ [x] ∧
       headers (sent x) = dict_update mine (api_headers st).
Proof.
  intros mine st st'.
  apply (headers_mutated_in_place (world 0 service) "GET"
           (Const INDEX_ENDPOINT) (Passed 0) None None true st st
           (checks_login _ st)); by vm_compute.
Defined.

(** A call without the [login] flag on a new client, with a dictionary of
    the caller's: the guard raises, and neither that dictionary nor the
    default one gets the baseline headers; nothing is sent. *)
Lemma guard_stops_before_headers :
  let mine : gmap string fstr :=
    {[ "User-Agent" := [Lit "mine"]; "Accept" := [Lit "*/*"] ]} in
  let st := set_store {[ 0 := mine ]} fresh in
  let passed := _make_request (world 0 service) "GET" (Const SEARCH_ENDPOINT)
                  (Passed 0) search_params None false st in
  let omitted := _make_request (world 0 service) "GET" (Const SEARCH_ENDPOINT)
                   Omitted search_params None false st in
  api_headers st !! "Content-Type"
    = Some [Lit "application/x-www-form-urlencoded"] ∧
  passed.1 = Raise NotStarted ∧
  store passed.2 !! 0 = Some mine ∧
  mine !! "Content-Type" = None ∧
  mine !! "User-Agent" = Some [Lit "mine"] ∧
  omitted.1 = Raise NotStarted ∧
  default_headers omitted.2 = ∅ ∧
  log passed.2 = [] ∧ log omitted.2 = [].
Proof. vm_compute. by split_and!. Qed.

(** What the caller's dictionary holds afterwards, and the default
    dictionary after a login: the bearer entry is in it. *)
Example headers_after :
  let mine : gmap string fstr :=
    {[ "User-Agent" := [Lit "mine"]; "Accept" := [Lit "*/*"] ]} in
  let st := set_store {[ 0 := mine ]} fresh in
  let st' := (_make_request (world 0 service) "GET" (Const INDEX_ENDPOINT)
                (Passed 0) None None true st).2 in
  store st' !! 0 =
    Some (<["Accept" := [Lit "*/*"]]> (api_headers fresh)) ∧
  default_headers (start (world 0 service) fresh).2 !! "Authorization" =
    Some [Val (JStr "Bearer"); Lit " "; Val (JStr "tok")].
Proof. by vm_compute. Qed.

End Instances.

(** ** More on the playlist parser *)

Section PlaylistMore.

Context (E : env).

Implicit Types (lines todo : list string) (formats : list PlaylistItem).

(** What the loop returns, when it returns: the records it started with,
    then one record for each descriptor line, in order. *)
Lemma scan_returns lines todo :
  ∀ i formats out,
    scan E lines i todo formats = Return out →
    ∃ items, out = formats ++ items ∧
             Forall2 (built_from lines) (descriptors E i todo) items.
Proof.
  induction todo as [|line todo IH]; intros i formats out; simpl.
  - intros [= <-]. exists []. by rewrite app_nil_r.
  - destruct (PLAYLIST_REG E (Py.strip line)) as [g|]; [|apply IH].
    destruct (lines !! i) as [next|] eqn:Hn; [|done].
    destruct (int_group (group1 g)) as [b|] eqn:H1; [|done].
    destruct (int_group (group2 g)) as [w|] eqn:H2; [|done].
    destruct (int_group (group3 g)) as [h|] eqn:H3; [|done].
    simpl. intros Hs. apply IH in Hs as (items & -> & Hitems).
    eexists (_ :: items). rewrite <- app_assoc. split; [done|].
    constructor; [|done]. exists next. by simpl.
Qed.

Lemma descriptors_none i todo :
  Forall (λ line, PLAYLIST_REG E (Py.strip line) = None) todo →
  descriptors E i todo = [].
Proof.
  intros H. revert i. induction H as [|line todo Hl _ IH]; intros i; [done|].
  simpl. by rewrite Hl.
Qed.

Lemma scan_no_descriptor lines todo :
  Forall (λ line, PLAYLIST_REG E (Py.strip line) = None) todo →
  ∀ i formats, scan E lines i todo formats = Return formats.
Proof.
  induction 1 as [|line todo Hl _ IH]; intros i formats; [done|].
  simpl. by rewrite Hl.
Qed.

(** X13: a playlist that [get_formats] parses yields exactly one record
    for each descriptor line, in the order of the lines; the record of a
    descriptor has for [url] the next line, stripped, whatever that line
    is, and for its numbers and strings the groups of the match. *)
Theorem get_formats_returns url st l :
  (get_formats E url st).1 = Return (Formats l) →
  ∃ r, net E (log st) (Request "GET" (Str url) ∅ None None) = Answers r ∧
       Forall2 (built_from (Py.split_lines (text r)))
         (descriptors E 1 (Py.split_lines (text r))) l.
Proof.
  unfold get_formats, mbind, M_bind, bind, httpx_request.
  destruct (net E (log st) _) as [r|]; [|done]. simpl.
  unfold formats_of_text.
  destruct (scan E _ 1 _ []) as [out|e] eqn:Hs; [|done].
  simpl. intros [= <-]. exists r. split; [done|].
  apply scan_returns in Hs as (items & -> & H). done.
Qed.

(** X14: a playlist with no descriptor line, the empty text among them,
    parses to the empty list. *)
Theorem get_formats_no_descriptor url st r :
  net E (log st) (Request "GET" (Str url) ∅ None None) = Answers r →
  Forall (λ line, PLAYLIST_REG E (Py.strip line) = None)
    (Py.split_lines (text r)) →
  (get_formats E url st).1 = Return (Formats []).
Proof.
  intros Hn Hno. unfold get_formats, mbind, M_bind, bind, httpx_request.
  rewrite Hn. simpl. unfold formats_of_text.
  by rewrite scan_no_descriptor.
Qed.

Lemma int_group_error g e : int_group g = Raise e → parse_error e.
Proof.
  unfold int_group, parse_error. destruct g as [s|]; [|naive_solver].
  destruct (Py.int s); naive_solver.
Qed.

Lemma scan_last_descriptor todo :
  ∀ seen formats line g,
    last todo = Some line →
    PLAYLIST_REG E (Py.strip line) = Some g →
    ∃ e, scan E (seen ++ todo) (S (List.length seen)) todo formats = Raise e ∧
         parse_error e.
Proof.
  induction todo as [|a todo IH]; intros seen formats line g Hlast Hg; [done|].
  destruct todo as [|a' todo].
  - injection Hlast as ->. exists IndexError. split; [|by left].
    eapply scan_last; [done|]. rewrite length_app. simpl. lia.
  - change (last (a :: a' :: todo)) with (last (a' :: todo)) in Hlast.
    assert (Hnext : ∀ fs, ∃ e,
      scan E (seen ++ a :: a' :: todo) (S (S (List.length seen))) (a' :: todo) fs
        = Raise e ∧ parse_error e).
    { intros fs.
      destruct (IH (seen ++ [a]) fs line g Hlast Hg) as (e & He & Hp).
      exists e. split; [|done]. rewrite <- He, <- app_assoc, length_app. simpl.
      by rewrite Nat.add_1_r. }
    remember (a' :: todo) as rest. simpl.
    destruct (PLAYLIST_REG E (Py.strip a)) as [regesp|]; [|apply Hnext].
    destruct ((seen ++ a :: rest) !! S (List.length seen));
      [|exists IndexError; split; [done|by left]].
    destruct (int_group (group1 regesp)) eqn:H1; simpl;
      [|eexists; split; [done|by eapply int_group_error]].
    destruct (int_group (group2 regesp)) eqn:H2; simpl;
      [|eexists; split; [done|by eapply int_group_error]].
    destruct (int_group (group3 regesp)) eqn:H3; simpl;
      [|eexists; split; [done|by eapply int_group_error]].
    apply Hnext.
Qed.

(** X15: a playlist whose last line is a descriptor is never parsed to a
    list: [get_formats] raises, after its GET, an [IndexError], or the
    [TypeError] or [ValueError] of an earlier descriptor whose numbers do
    not read. *)
Theorem get_formats_last_descriptor url st r line g :
  net E (log st) (Request "GET" (Str url) ∅ None None) = Answers r →
  last (Py.split_lines (text r)) = Some line →
  PLAYLIST_REG E (Py.strip line) = Some g →
  ∃ e, (get_formats E url st).1 = Raise e ∧
       (e = IndexError ∨ e = TypeError ∨ e = ValueError).
Proof.
  intros Hn Hl Hg. unfold get_formats, mbind, M_bind, bind, httpx_request.
  rewrite Hn. simpl. unfold formats_of_text.
  destruct (scan_last_descriptor (Py.split_lines (text r)) [] [] line g Hl Hg)
    as (e & He & Hp).
  simpl in He. rewrite He. by exists e.
Qed.

End PlaylistMore.

(** ** The stream id of an episode *)

Section StreamId.

Context (E : env).

Implicit Types (s p g acc href pre post body : string).

Lemma prefix_true p s :
  Py.prefix p s = true → s = p +:+ Py.drop (String.length p) s.
Proof.
  revert s. induction p as [|a p IH]; intros [|b s]; simpl; try done.
  intros [Hab Hp]%andb_prop. apply Ascii.eqb_eq in Hab as ->.
  unfold String.app. simpl. f_equal. by apply IH.
Qed.

Lemma prefix_app p s : Py.prefix p (p +:+ s) = true.
Proof.
  induction p as [|a p IH]; [done|].
  unfold String.app. simpl. rewrite Ascii.eqb_refl. exact IH.
Qed.

Lemma drop_app p s : Py.drop (String.length p) (p +:+ s) = s.
Proof.
  induction p as [|a p IH]; [by destruct s|]. exact IH.
Qed.

Lemma rev_app_cons acc c body :
  String.rev_app (String c acc) body = String.rev_app acc (String c body).
Proof. done. Qed.

Lemma search_stream_id_unfold href :
  search_stream_id href =
    match (if Py.prefix "videos/" href
           then stream_id_group EmptyString (Py.drop 7 href) else None) with
    | Some g => Some g
    | None =>
        match href with
        | String _ href' => search_stream_id href'
        | EmptyString => None
        end
    end.
Proof. by destruct href. Qed.

Lemma stream_id_group_sound s :
  ∀ acc g, stream_id_group acc s = Some g →
    ∃ body post, g = String.rev_app acc body ∧
                 s = body +:+ "/streams" +:+ post ∧
                 body ≠ EmptyString ∧ one_line body = true.
Proof.
  induction s as [|c s IH]; intros acc g; [done|].
  cbn [stream_id_group].
  destruct (Ascii.eqb c "010") eqn:Hc; [done|].
  destruct (Py.prefix "/streams" s) eqn:Hp.
  - intros [= <-]. apply prefix_true in Hp.
    exists (String c EmptyString), (Py.drop (String.length "/streams") s).
    split_and!; [done| |done|].
    + unfold String.app at 1. simpl. f_equal. exact Hp.
    + simpl. by rewrite Hc.
  - intros (body & post & -> & -> & Hne & Hol)%IH.
    exists (String c body), post. split_and!; [done|done|done|].
    simpl. by rewrite Hc, Hol.
Qed.

Lemma stream_id_group_complete g :
  ∀ acc post, g ≠ EmptyString → one_line g = true →
    is_Some (stream_id_group acc (g +:+ "/streams" +:+ post)).
Proof.
  induction g as [|c g IH]; intros acc post Hne Hol; [done|].
  simpl in Hol. apply andb_prop in Hol as [Hc Hol].
  apply negb_true_iff in Hc.
  change (String c g +:+ "/streams" +:+ post)
    with (String c (g +:+ "/streams" +:+ post)).
  cbn [stream_id_group]. rewrite Hc.
  destruct (Py.prefix "/streams" (g +:+ "/streams" +:+ post)) eqn:Hp; [done|].
  apply IH; [|done]. intros ->.
  change (EmptyString +:+ "/streams" +:+ post) with ("/streams" +:+ post) in Hp.
  by rewrite prefix_app in Hp.
Qed.

(** X12: the stream id [get_streams] takes from an episode's href is a
    part of the href that stands between [videos/] and [/streams], is not
    empty and holds no line feed; and an href with such a part always
    yields one; on an href that has none, [get_streams] raises an
    [AttributeError] before anything else happens. *)
Theorem search_stream_id_spec href :
  (∀ raw_json st, search_stream_id href = None →
     get_streams E href raw_json st = (Raise AttributeError, st)) ∧
  (∀ g, search_stream_id href = Some g →
        g ≠ EmptyString ∧ one_line g = true ∧
        ∃ pre post, href = pre +:+ "videos/" +:+ g +:+ "/streams" +:+ post) ∧
  (∀ pre g post,
     href = pre +:+ "videos/" +:+ g +:+ "/streams" +:+ post →
     g ≠ EmptyString → one_line g = true →
     is_Some (search_stream_id href)).
Proof.
  split; [|split].
  - intros raw_json st Hn.
    unfold get_streams, mbind, M_bind, bind, get_state. by rewrite Hn.
  - induction href as [|c href IH]; intros g; rewrite search_stream_id_unfold.
    + done.
    + destruct (Py.prefix "videos/" (String c href)) eqn:Hp.
      * destruct (stream_id_group EmptyString (Py.drop 7 (String c href)))
          as [g'|] eqn:Hg.
        -- intros [= ->]. apply prefix_true in Hp.
           apply stream_id_group_sound in Hg
             as (body & post & -> & Hd & Hne & Hol).
           split_and!; [done|done|]. exists EmptyString, post.
           etrans; [exact Hp|].
           change (String.length "videos/") with 7. by rewrite Hd.
        -- intros (Hne & Hol & pre & post & ->)%IH.
           split_and!; [done|done|]. by exists (String c pre), post.
      * intros (Hne & Hol & pre & post & ->)%IH.
        split_and!; [done|done|]. by exists (String c pre), post.
  - intros pre g post -> Hne Hol.
    induction pre as [|c pre IH]; rewrite search_stream_id_unfold.
    + change (EmptyString +:+ "videos/" +:+ g +:+ "/streams" +:+ post)
        with ("videos/" +:+ g +:+ "/streams" +:+ post).
      rewrite prefix_app.
      change 7 with (String.length "videos/"). rewrite drop_app.
      by destruct (stream_id_group_complete g EmptyString post Hne Hol) as [? ->].
    + change (String c pre +:+ "videos/" +:+ g +:+ "/streams" +:+ post)
        with (String c (pre +:+ "videos/" +:+ g +:+ "/streams" +:+ post)).
      by destruct (if Py.prefix "videos/" _ then _ else _).
Qed.

End StreamId.

(** ** More on the dispatcher *)

Section DispatcherMore.

Context (E : env).

Implicit Types (st : state) (r : response) (body b : gmap string json).

(** X4: a call that gets its answer returns exactly when the answer
    decodes, has status 200, is no [invalid_grant] error and is not a
    [message] with a [code] and without an [error]; what it returns then
    is the decoded body. *)
Theorem dispatcher_returns_iff m u h p d login st r st' b :
  receives E m u h p d login st r st' →
  _make_request E m u h p d login st = (Return b, st') ↔
  json_body r = Some b ∧ status_code r = 200%Z ∧
  json_eq_str (dict_get "error" b) "invalid_grant" = false ∧
  (dict_has "error" b = true ∨
   dict_has "message" b = false ∨ dict_has "code" b = false).
Proof.
  intros Hr. rewrite (receives_result _ _ _ _ _ _ _ _ _ _ Hr).
  unfold classify, check_status. split.
  - intros [= Hc]. destruct (json_body r) as [body|]; [|done].
    destruct (dict_has "error" body) eqn:He.
    + destruct (json_eq_str _ _) eqn:Hg; [done|].
      case_bool_decide as Hs; [done|]. injection Hc as ->.
      split_and!; [done|lia|done|by left].
    + destruct (dict_has "message" body && dict_has "code" body) eqn:Hmc;
        [done|].
      case_bool_decide as Hs; [done|]. injection Hc as ->.
      split_and!; [done|lia| |].
      * unfold dict_has in He. unfold dict_get.
        by destruct (b !! "error").
      * apply andb_false_iff in Hmc. by right.
  - intros (-> & Hs & Hg & Hk). rewrite Hg.
    rewrite bool_decide_eq_false_2 by lia.
    destruct (dict_has "error" b); [done|].
    destruct Hk as [?|Hk]; [done|].
    by rewrite (proj2 (andb_false_iff _ _) Hk).
Qed.

(** X5: when the session state has a [cms] entry whose [expires] cannot
    be read, the request is not sent and nothing changes: a [cms] mapping
    without the key raises [KeyError], a [cms] that is no mapping
    [TypeError], and an [expires] that [str_to_date] refuses raises what
    [str_to_date] raises. *)
Theorem expires_unreadable m u h p d st cms :
  config st !! "cms" = Some cms →
  (∀ e, result_bind (subscript cms "expires") (str_to_date E) = Raise e →
        _make_request E m u h p d false st = (Raise e, st)) ∧
  (∀ o, cms = JObj o → o !! "expires" = None →
        _make_request E m u h p d false st = (Raise (KeyError "expires"), st)) ∧
  ((∀ o, cms ≠ JObj o) →
        _make_request E m u h p d false st = (Raise TypeError, st)).
Proof.
  intros Hc.
  assert (H : ∀ e,
    result_bind (subscript cms "expires") (str_to_date E) = Raise e →
    _make_request E m u h p d false st = (Raise e, st)).
  { intros e He. unfold _make_request, mbind, M_bind, bind.
    rewrite (checks_with_cms _ _ _ Hc). unfold _update_session.
    by rewrite Hc, He. }
  split_and!; [done| |].
  - intros o -> Ho. apply H. simpl. by rewrite Ho.
  - intros Hno. apply H. destruct cms as [| | | | |o]; try done.
    by destruct (Hno o).
Qed.

End DispatcherMore.

(** ** More on the login sequence *)

Section LoginMore.

Context (E : env).

Implicit Types (st : state) (r : response) (b body : gmap string json).

(** [token_step], unfolded. *)
Lemma token_step_run st :
  token_step E st =
  let rq := token_request E st in
  let o := net E (log st) rq in
  let s0 := set_log (log st ++ [Exchange true rq o]) st in
  match o with
  | Answers r =>
      match classify r with
      | Return b =>
          (Return tt,
           set_api_headers
             (dict_update (api_headers s0) {[ "Authorization" := bearer b ]})
             (set_config (dict_update (config s0) b) s0))
      | Raise e => (Raise e, s0)
      end
  | Fails => (Raise TransportError, s0)
  end.
Proof.
  unfold token_step, mbind, M_bind, bind, get_state. rewrite send_run. simpl.
  fold (token_request E st).
  destruct (net E (log st) (token_request E st)) as [r|]; [|done].
  by destruct (classify r).
Qed.

(** [index_step], unfolded. *)
Lemma index_step_run st :
  index_step E st =
  let hs := dict_update (default_headers st) (api_headers st) in
  let rq := Request "GET" (Const INDEX_ENDPOINT) hs None None in
  let o := net E (log st) rq in
  let s0 := set_log (log st ++ [Exchange true rq o]) (set_default_headers hs st) in
  match o with
  | Answers r =>
      match classify r with
      | Return b => (Return tt, set_config (dict_update (config s0) b) s0)
      | Raise e => (Raise e, s0)
      end
  | Fails => (Raise TransportError, s0)
  end.
Proof.
  unfold index_step, mbind, M_bind, bind. rewrite send_run. simpl.
  destruct (net E (log st) _) as [r|]; [|done].
  by destruct (classify r).
Qed.

Lemma token_request_authorization st :
  headers (token_request E st) !! "Authorization" =
    match api_headers st !! "Authorization" with
    | Some v => Some v
    | None => Some [Lit (AUTHORIZATION E)]
    end.
Proof.
  unfold token_request. simpl. rewrite dict_update_lookup.
  destruct (api_headers st !! "Authorization"); [done|].
  apply lookup_singleton_eq.
Qed.

(** X1: every login starts with one POST to the token endpoint, with the
    credentials of the client as its form; its [Authorization] header is
    the client constant only as long as [self.api_headers] has no such
    entry: once a login has written the bearer entry there, the token
    request of the next login carries that bearer entry instead. *)
Theorem login_token_request st :
  (∃ rest, log (_login E st).2 =
     log st ++ Exchange true (token_request E st)
                 (net E (log st) (token_request E st)) :: rest) ∧
  method (token_request E st) = "POST" ∧
  target (token_request E st) = Const TOKEN_ENDPOINT ∧
  data (token_request E st) =
    Some {[ "username" := JStr (email st); "password" := JStr (password st);
            "grant_type" := JStr "password";
            "scope" := JStr "offline_access" ]} ∧
  (api_headers st !! "Authorization" = None →
   headers (token_request E st) !! "Authorization"
     = Some [Lit (AUTHORIZATION E)]) ∧
  (∀ v, api_headers st !! "Authorization" = Some v →
   headers (token_request E st) !! "Authorization" = Some v).
Proof.
  split_and!; [|done|done|done| |].
  - unfold _login, mbind, M_bind, bind.
    destruct (token_step E st) as [[[]|e] s1] eqn:H1.
    + pose proof H1 as H1'. rewrite token_step_run in H1'.
      assert (Hl1 : log s1 = log st ++ [Exchange true (token_request E st)
                (net E (log st) (token_request E st))]).
      { simpl in H1'. destruct (net E (log st) _) as [r|]; [|done].
        destruct (classify r); [|done]. by injection H1' as <-. }
      destruct (index_step E s1) as [[[]|e2] s2] eqn:H2;
        apply index_step_spec in H2 as (x2 & Hl2 & _).
      * destruct (profile_step E s2) as [[[]|e3] s3] eqn:H3;
          apply profile_step_spec in H3 as (x3 & Hl3 & _); simpl;
          exists [x2; x3]; by rewrite Hl3, Hl2, Hl1, <- !app_assoc.
      * simpl. exists [x2]. by rewrite Hl2, Hl1, <- app_assoc.
    + simpl. exists []. rewrite token_step_run in H1. simpl in H1.
      destruct (net E (log st) _) as [r|]; [|by injection H1 as <- <-].
      destruct (classify r); [done|]. by injection H1 as <- <-.
  - intros Hn. by rewrite token_request_authorization, Hn.
  - intros v Hv. by rewrite token_request_authorization, Hv.
Qed.

Lemma _login_after_token st r b :
  net E (log st) (token_request E st) = Answers r →
  classify r = Return b →
  ∃ x2 rest,
    log (_login E st).2 =
      log st ++ Exchange true (token_request E st) (Answers r) :: x2 :: rest ∧
    login_flag x2 = true ∧
    method (sent x2) = "GET" ∧ target (sent x2) = Const INDEX_ENDPOINT ∧
    headers (sent x2) !! "Authorization" = Some (bearer b) ∧
    (∀ k, k ≠ "Authorization" →
       headers (sent x2) !! k =
         match api_headers st !! k with
         | Some v => Some v
         | None => default_headers st !! k
         end) ∧
    api_headers (_login E st).2 !! "Authorization" = Some (bearer b).
Proof.
  intros Hn Hc. unfold _login, mbind, M_bind, bind.
  rewrite token_step_run. simpl. rewrite Hn, Hc.
  set (s1 := set_api_headers _ _).
  assert (Hb : api_headers s1 !! "Authorization" = Some (bearer b)).
  { subst s1. simpl. rewrite dict_update_lookup. by rewrite lookup_singleton_eq. }
  assert (Hk : ∀ k, k ≠ "Authorization" →
            api_headers s1 !! k = api_headers st !! k).
  { intros k Hne. subst s1. simpl. rewrite dict_update_lookup.
    by rewrite lookup_singleton_ne. }
  assert (Hx2 : ∃ x2, log (index_step E s1).2 = log s1 ++ [x2] ∧
            login_flag x2 = true ∧ method (sent x2) = "GET" ∧
            target (sent x2) = Const INDEX_ENDPOINT ∧
            headers (sent x2) =
              dict_update (default_headers s1) (api_headers s1) ∧
            api_headers (index_step E s1).2 = api_headers s1).
  { rewrite index_step_run. simpl.
    destruct (net E (log st ++ _) _) as [r2|]; [destruct (classify r2)|];
      simpl; eexists; split_and!; done. }
  destruct Hx2 as (x2 & Hl2 & Hf2 & Hm2 & Ht2 & Hh2 & Ha2).
  assert (Hauth : headers (sent x2) !! "Authorization" = Some (bearer b)).
  { by rewrite Hh2, dict_update_lookup, Hb. }
  assert (Hother : ∀ k, k ≠ "Authorization" →
            headers (sent x2) !! k =
              match api_headers st !! k with
              | Some v => Some v
              | None => default_headers st !! k
              end).
  { intros k Hne. by rewrite Hh2, dict_update_lookup, (Hk k Hne). }
  destruct (index_step E s1) as [[[]|e2] s2] eqn:H2; simpl in *.
  - destruct (profile_step E s2) as [res3 s3] eqn:H3.
    apply profile_step_spec in H3 as (x3 & Hl3 & _ & _ & Ha3 & _).
    exists x2, [x3].
    assert (log s3 = log st ++
      [Exchange true (token_request E st) (Answers r); x2; x3]) as Hl.
    { by rewrite Hl3, Hl2, <- !app_assoc. }
    destruct res3 as [[]|e3]; simpl;
      split_and!; try done; by rewrite Ha3, Ha2.
  - exists x2, []. split_and!; try done; [|by rewrite Ha2].
    by rewrite Hl2, <- app_assoc.
Qed.

(** X2: when the token request is answered with a body the dispatcher
    returns, the index request follows at once, a GET whose
    [Authorization] header is the token type and the access token of that
    body ([None] for one that the body lacks), its other headers being the
    baseline ones; and the bearer entry stays in [self.api_headers]. *)
Theorem login_index_request st r b :
  net E (log st) (token_request E st) = Answers r →
  classify r = Return b →
  ∃ x2 rest,
    log (_login E st).2 =
      log st ++ Exchange true (token_request E st) (Answers r) :: x2 :: rest ∧
    login_flag x2 = true ∧
    method (sent x2) = "GET" ∧ target (sent x2) = Const INDEX_ENDPOINT ∧
    headers (sent x2) !! "Authorization" = Some (bearer b) ∧
    (∀ k, k ≠ "Authorization" →
       headers (sent x2) !! k =
         match api_headers st !! k with
         | Some v => Some v
         | None => default_headers st !! k
         end) ∧
    api_headers (_login E st).2 !! "Authorization" = Some (bearer b).
Proof. apply _login_after_token. Qed.

(** X16: a request that finds the session expired and whose login
    succeeds goes out last, after the login, with the bearer entry of the
    new token in its [Authorization] header: the session is checked before
    the headers are merged. *)
Theorem refreshed_token_is_sent m u p d st cms expires t r b :
  config st !! "cms" = Some cms →
  subscript cms "expires" = Return expires →
  str_to_date E expires = Return t →
  (t < get_date E (log st))%Z →
  net E (log st) (token_request E st) = Answers r →
  classify r = Return b →
  (_login E st).1 = Return tt →
  ∃ y, last (log (_make_request E m u Omitted p d false st).2) = Some y ∧
       login_flag y = false ∧ target (sent y) = u ∧
       headers (sent y) !! "Authorization" = Some (bearer b).
Proof.
  intros Hc He Ht Hlt Hn Hcl Hret.
  destruct (_login_after_token st r b Hn Hcl) as (_ & _ & _ & _ & _ & _ & _ & _ & Hapi).
  unfold _make_request, mbind, M_bind, bind.
  rewrite (checks_with_cms _ _ _ Hc),
    (_update_session_expired _ _ _ _ _ Hc He Ht Hlt).
  destruct (_login E st) as [res s1]. simpl in Hret, Hapi. subst res.
  rewrite send_run. simpl. eexists. rewrite last_snoc.
  split_and!; [done..|]. simpl.
  by rewrite dict_update_lookup, Hapi.
Qed.

(** X3: when the service rejects the credentials, [start] prints its
    banner, makes the token request and raises the invalid-credentials
    error with the status code: nothing else is requested, and the session
    state, the baseline headers and the default dictionary are as they
    were. *)
Theorem start_invalid_credentials st r body :
  net E (log st) (token_request E st) = Answers r →
  json_body r = Some body →
  body !! "error" = Some (JStr "invalid_grant") →
  start E st =
    (Raise (CrunchyrollError
       [Lit "["; Int (status_code r); Lit "] Invalid login credentials."]),
     set_log (log st ++ [Exchange true (token_request E st) (Answers r)])
       (set_stdout (stdout st ++ [banner E]) st)).
Proof.
  intros Hn Hb He.
  assert (Hc : classify r = Raise (CrunchyrollError
            [Lit "["; Int (status_code r); Lit "] Invalid login credentials."])).
  { unfold classify. rewrite Hb, (dict_has_Some _ _ _ He).
    unfold dict_get. by rewrite He. }
  unfold start, _login, mbind, M_bind, bind, modify.
  rewrite token_step_run.
  change (token_request E (set_stdout _ st)) with (token_request E st).
  change (log (set_stdout _ st)) with (log st).
  cbv zeta. by rewrite Hn, Hc.
Qed.

End LoginMore.

(** ** What the public methods leave alone *)

Section Frame.

Context (E : env).

Implicit Types (st : state) (R : relation state).

#[local] Instance frame_preorder : PreOrder frame.
Proof.
  split.
  - intros st. split_and!; [done..| |]; exists []; by rewrite app_nil_r.
  - intros s1 s2 s3 (He & Hp & Hl & Hs & [o1 Ho1] & [n1 Hn1])
      (He' & Hp' & Hl' & Hs' & [o2 Ho2] & [n2 Hn2]).
    split_and!; [congruence..| |].
    + exists (o1 ++ o2). by rewrite Ho2, Ho1, app_assoc.
    + exists (n1 ++ n2). by rewrite Hn2, Hn1, app_assoc.
Qed.

#[local] Instance evolves_preorder : PreOrder evolves.
Proof.
  split.
  - intros st. split; [reflexivity|]. by intros new _ _.
  - intros s1 s2 s3 [F1 U1] [F2 U2]. split; [by etrans|].
    intros new Hnew H0.
    destruct F1 as (_ & _ & _ & _ & _ & [n1 Hn1]).
    destruct F2 as (_ & _ & _ & _ & _ & [n2 Hn2]).
    assert (new = n1 ++ n2) as ->.
    { rewrite Hn2, Hn1, <- app_assoc in Hnew. by apply app_inv_head in Hnew. }
    rewrite logins_app in H0.
    destruct (U1 n1 Hn1) as [Hc1 Ha1]; [lia|].
    destruct (U2 n2 Hn2) as [Hc2 Ha2]; [lia|].
    split; congruence.
Qed.

Lemma respects_ret R `{!Reflexive R} {A} (a : A) : respects R (mret a).
Proof. intros st. simpl. reflexivity. Qed.

Lemma respects_raise R `{!Reflexive R} {A} e : respects R (raise e : M A).
Proof. intros st. simpl. reflexivity. Qed.

Lemma respects_lift R `{!Reflexive R} {A} (r : result A) : respects R (lift r).
Proof. intros st. simpl. reflexivity. Qed.

Lemma respects_get_state R `{!Reflexive R} : respects R get_state.
Proof. intros st. simpl. reflexivity. Qed.

Lemma respects_bind R `{!PreOrder R} {A B} (m : M A) (k : A → M B) :
  respects R m → (∀ a, respects R (k a)) → respects R (m ≫= k).
Proof.
  intros Hm Hk st. unfold mbind, M_bind, bind.
  specialize (Hm st). destruct (m st) as [[a|e] st1]; simpl in *; [|done].
  etrans; [exact Hm|]. apply Hk.
Qed.

Lemma respects_if R {A} (b : bool) (m1 m2 : M A) :
  respects R m1 → respects R m2 → respects R (if b then m1 else m2).
Proof. by destruct b. Qed.

Lemma respects_frame {A} (m : M A) : respects evolves m → respects frame m.
Proof. intros H st. apply H. Qed.

Lemma evolves_cms_get k : respects evolves (cms_get k).
Proof. intros st. unfold cms_get. repeat case_match; simpl; reflexivity. Qed.

(** One more request that starts no login. *)
Lemma evolves_one_more st st' x :
  email st' = email st → password st' = password st →
  locale st' = locale st → store st' = store st → stdout st' = stdout st →
  config st' = config st → api_headers st' = api_headers st →
  log st' = log st ++ [x] →
  evolves st st'.
Proof.
  intros ? ? ? ? Ho ? ? Hl. split.
  - split_and!; [done..| |by exists [x]].
    exists []. by rewrite app_nil_r.
  - by intros new _ _.
Qed.

(** A call without a [headers] argument, or with a dictionary of its own. *)
Lemma evolves_send m u h p d login :
  (∀ l, h ≠ Passed l) → respects evolves (send E m u h p d login).
Proof.
  intros Hh st. rewrite send_run.
  destruct h as [|l|h0]; [|by destruct (Hh l)|]; simpl;
    by eapply evolves_one_more.
Qed.

Lemma evolves_httpx_request login rq : respects evolves (httpx_request E login rq).
Proof.
  intros st. unfold httpx_request.
  destruct (net E (log st) rq); simpl; by eapply evolves_one_more.
Qed.

Lemma frame_same st st' :
  email st' = email st → password st' = password st →
  locale st' = locale st → store st' = store st →
  stdout st' = stdout st → log st' = log st →
  frame st st'.
Proof.
  intros ? ? ? ? Ho Hl. split_and!; [done..| |]; exists [];
    by rewrite app_nil_r.
Qed.

Lemma frame_merge (r : gmap string json) :
  respects frame (modify (λ st, set_config (dict_update (config st) r) st)).
Proof. intros st. by apply frame_same. Qed.

Lemma frame_set_api_headers f :
  respects frame (modify (λ st, set_api_headers (f st) st)).
Proof. intros st. by apply frame_same. Qed.

Lemma evolves_print f :
  respects evolves (modify (λ st, set_stdout (stdout st ++ f st) st)).
Proof.
  intros st. simpl. split.
  - split_and!; [done..|by eexists|]. exists []. by rewrite app_nil_r.
  - by intros new _ _.
Qed.

Lemma frame__login : respects frame (_login E).
Proof.
  unfold _login, token_step, index_step, profile_step.
  repeat first
    [ apply respects_get_state; apply _
    | apply respects_frame, evolves_send; by intros ?
    | apply frame_merge
    | apply frame_set_api_headers
    | apply respects_bind; [apply _| |intros ?] ].
Qed.

(** A login is a login: the history shows it. *)
Lemma evolves__login : respects evolves (_login E).
Proof.
  intros st. split; [apply frame__login|].
  intros new Hnew H0. exfalso.
  destruct (_login E st) as [res st'] eqn:Hl. simpl in Hnew.
  apply _login_trace in Hl as (x & pre & Hlog & Hx & _).
  rewrite Hlog in Hnew. apply app_inv_head in Hnew as <-.
  change (x :: pre) with ([x] ++ pre) in H0.
  rewrite logins_app, (logins_one _ Hx) in H0. lia.
Qed.

Lemma evolves__update_session : respects evolves (_update_session E).
Proof.
  intros st. unfold _update_session.
  repeat case_match; simpl; try reflexivity. apply evolves__login.
Qed.

Lemma evolves__make_request m u p d login :
  respects evolves (_make_request E m u Omitted p d login).
Proof.
  unfold _make_request, checks.
  repeat first
    [ apply respects_if
    | apply respects_get_state; apply _
    | apply respects_raise; apply _
    | apply respects_ret; apply _
    | apply evolves__update_session
    | apply evolves_send; by intros ?
    | apply respects_bind; [apply _| |intros ?] ].
Qed.

Lemma evolves_run c : respects evolves (run E c).
Proof.
  destruct c; simpl;
    unfold start, search, get_series, get_seasons, get_episodes, get_streams,
      get_similar, news_feed, browse, get_formats, signed_params, many, one;
    repeat first
      [ apply respects_if
      | apply respects_get_state; apply _
      | apply respects_raise; apply _
      | apply respects_ret; apply _
      | apply respects_lift; apply _
      | apply evolves_cms_get
      | apply evolves__make_request
      | apply evolves__login
      | apply evolves_httpx_request
      | apply (evolves_print (λ _, [banner E]))
      | apply respects_bind; [apply _| |intros ?]
      | match goal with
        | |- respects _ (match ?x with _ => _ end) => destruct x
        end ].
Qed.

Lemma evolves_run_all cs st : evolves st (run_all E cs st).
Proof.
  revert st. induction cs as [|c cs IH]; intros st; simpl; [reflexivity|].
  etrans; [apply (evolves_run c)|]. apply IH.
Qed.

(** X7: no sequence of public calls, whatever each returns or raises,
    changes the credentials or the locale of the client or a dictionary a
    caller holds; the history of HTTP calls and the output only grow. *)
Theorem public_calls_frame cs st :
  email (run_all E cs st) = email st ∧
  password (run_all E cs st) = password st ∧
  locale (run_all E cs st) = locale st ∧
  store (run_all E cs st) = store st ∧
  (∃ out, stdout (run_all E cs st) = stdout st ++ out) ∧
  (∃ new, log (run_all E cs st) = log st ++ new).
Proof. apply evolves_run_all. Qed.

(** X8: the session state and the baseline headers change through a
    login only: over any sequence of public calls during which no token
    request went out, [self.config] and [self.api_headers] end as they
    began. *)
Theorem session_changes_only_by_login cs st new :
  log (run_all E cs st) = log st ++ new →
  logins new = 0 →
  config (run_all E cs st) = config st ∧
  api_headers (run_all E cs st) = api_headers st.
Proof. apply evolves_run_all. Qed.

End Frame.

(** ** The requests of a public call *)

Section Requests.

Context (E : env).

Implicit Types (st : state) (x y : exchange) (c : call).

Lemma _login_log st res st' :
  _login E st = (res, st') →
  ∃ new, log st' = log st ++ new ∧
         Forall (λ y, login_flag y = true) new ∧
         logins new = 1 ∧ List.length new ≤ 3.
Proof.
  intros H. pose proof H as H'.
  apply _login_trace in H as (x & pre & Hl & Hx & Hpre).
  exists (x :: pre). split_and!; [done| | |].
  - constructor.
    + unfold is_token_request in Hx. by apply andb_prop in Hx as [? _].
    + eapply Forall_impl; [exact Hpre|]. by intros y [? _].
  - change (x :: pre) with ([x] ++ pre).
    rewrite logins_app, (logins_one _ Hx), logins_none; [done|].
    eapply Forall_impl; [exact Hpre|]. by intros y [_ ?].
  - apply _login_cases in H' as (_ & x1 & _ & H).
    destruct H as [(? & _ & Hl' & _)|[(? & ? & ? & _ & _ & Hl' & _)|
      [(? & ? & ? & ? & ? & _ & _ & _ & Hl' & _)|
       (? & ? & ? & ? & ? & _ & _ & _ & _ & Hl' & _)]]];
      rewrite Hl' in Hl; apply app_inv_head in Hl;
      apply (f_equal List.length) in Hl; simpl in *; lia.
Qed.

Lemma checks_log login st res st0 :
  checks E login st = (res, st0) →
  ∃ pre, log st0 = log st ++ pre ∧
         Forall (λ y, login_flag y = true) pre ∧
         logins pre ≤ 1 ∧ List.length pre ≤ 3.
Proof.
  assert (Hnil : ∃ pre, log st = log st ++ pre ∧
            Forall (λ y, login_flag y = true) pre ∧
            logins pre ≤ 1 ∧ List.length pre ≤ 3).
  { exists []. rewrite app_nil_r.
    split_and!; [done|by apply Forall_nil|unfold logins; simpl; lia|simpl; lia]. }
  unfold checks, mbind, M_bind, bind, get_state, raise.
  destruct (bool_decide (config st = ∅) && negb login); [by intros [= <- <-]|].
  destruct login; simpl; [by intros [= <- <-]|].
  unfold _update_session.
  destruct (config st !! "cms") as [cms|]; [|by intros [= <- <-]].
  destruct (result_bind _ _) as [t|e]; [|by intros [= <- <-]].
  destruct (_ >? _)%Z; [|by intros [= <- <-]].
  intros H. apply _login_log in H as (new & ? & ? & ? & ?).
  exists new. split_and!; [done..|lia|done].
Qed.

Lemma _make_request_log m u h p d login st :
  ∃ pre own,
    log (_make_request E m u h p d login st).2 = log st ++ pre ++ own ∧
    Forall (λ y, login_flag y = true) pre ∧
    logins pre ≤ 1 ∧ List.length pre ≤ 3 ∧
    (own = [] ∨ ∃ y, own = [y] ∧ login_flag y = login ∧ target (sent y) = u).
Proof.
  unfold _make_request, mbind, M_bind, bind.
  destruct (checks E login st) as [[[]|e] st0] eqn:Hc;
    apply checks_log in Hc as (pre & Hl & Hf & Hn & Hlen).
  - destruct (send E m u h p d login st0) as [res st'] eqn:Hs.
    apply send_frame in Hs as (_ & _ & [Hl2|(y & Hl2 & Hy & Hu)]); simpl.
    + exists pre, []. rewrite Hl2, Hl, app_nil_r. split_and!; [done..|by left].
    + exists pre, [y]. rewrite Hl2, Hl, <- app_assoc.
      split_and!; [done..|]. right. by exists y.
  - simpl. exists pre, []. rewrite Hl, app_nil_r. split_and!; [done..|by left].
Qed.

(** The state a call of the dispatcher ends in is the state the method
    that made it ends in: what the method does with the body changes
    nothing. *)
Lemma many_state k raw r st : (many E k raw r st).2 = st.
Proof. unfold many. by destruct raw. Qed.

Lemma one_state k raw r st : (one E k raw r st).2 = st.
Proof. unfold one. by destruct raw. Qed.

Lemma cms_get_state k st : (cms_get k st).2 = st.
Proof. unfold cms_get. by repeat case_match. Qed.

Lemma signed_params_state st0 extra st : (signed_params st0 extra st).2 = st.
Proof.
  unfold signed_params, mbind, M_bind, bind, cms_get, mret, M_ret, ret.
  destruct (config st !! "cms") as [[]|] eqn:Hc; simpl; rewrite ?Hc; simpl;
    by rewrite ?Hc.
Qed.

(** The method goes on with one call of the dispatcher. *)
Local Ltac via_dispatcher :=
  right;
  match goal with
  | |- context [_make_request ?E0 "GET" ?u Omitted ?p None false ?st] =>
      exists u, p;
      destruct (_make_request E0 "GET" u Omitted p None false st)
        as [[?|?] ?]; [|done]
  end.

(** Every method but [start] and [get_formats] either stops before the
    dispatcher, the state being as it was, or ends in the state one call
    of the dispatcher, without the [login] flag, ends in. *)
Lemma run_state c st :
  c ≠ Start → (∀ url, c ≠ GetFormats url) →
  (run E c st).2 = st ∨
  ∃ u p, (run E c st).2 = (_make_request E "GET" u Omitted p None false st).2.
Proof.
  intros Hs Hf.
  destruct c as [|query n raw|series_id raw|series_id raw|season_id raw
                |href raw|series_id n raw|n raw|sort_by n raw|u0];
    [done| | | | | | | | |by destruct (Hf u0)]; simpl;
    unfold search, get_series, get_seasons, get_episodes, get_streams,
      get_similar, news_feed, browse, mbind, M_bind, bind, get_state.
  - via_dispatcher.
    apply many_state.
  - destruct (cms_get "bucket" st) as [[bucket|e] s0] eqn:Hb;
      pose proof (cms_get_state "bucket" st) as Hs0; rewrite Hb in Hs0;
      simpl in Hs0; subst s0; [|by left].
    destruct (signed_params st ∅ st) as [[ps|e] s0] eqn:Hp;
      pose proof (signed_params_state st ∅ st) as Hs0; rewrite Hp in Hs0;
      simpl in Hs0; subst s0; [|by left].
    via_dispatcher.
    apply one_state.
  - destruct (cms_get "bucket" st) as [[bucket|e] s0] eqn:Hb;
      pose proof (cms_get_state "bucket" st) as Hs0; rewrite Hb in Hs0;
      simpl in Hs0; subst s0; [|by left].
    destruct (signed_params st _ st) as [[ps|e] s0] eqn:Hp;
      pose proof (signed_params_state st {[ "series_id" := JStr series_id ]} st)
        as Hs0; rewrite Hp in Hs0;
      simpl in Hs0; subst s0; [|by left].
    via_dispatcher.
    apply many_state.
  - destruct (cms_get "bucket" st) as [[bucket|e] s0] eqn:Hb;
      pose proof (cms_get_state "bucket" st) as Hs0; rewrite Hb in Hs0;
      simpl in Hs0; subst s0; [|by left].
    destruct (signed_params st _ st) as [[ps|e] s0] eqn:Hp;
      pose proof (signed_params_state st {[ "season_id" := JStr season_id ]} st)
        as Hs0; rewrite Hp in Hs0;
      simpl in Hs0; subst s0; [|by left].
    via_dispatcher.
    apply many_state.
  - destruct (search_stream_id href) as [stream_id|]; [|by left].
    destruct (cms_get "bucket" st) as [[bucket|e] s0] eqn:Hb;
      pose proof (cms_get_state "bucket" st) as Hs0; rewrite Hb in Hs0;
      simpl in Hs0; subst s0; [|by left].
    destruct (signed_params st ∅ st) as [[ps|e] s0] eqn:Hp;
      pose proof (signed_params_state st ∅ st) as Hs0; rewrite Hp in Hs0;
      simpl in Hs0; subst s0; [|by left].
    via_dispatcher.
    apply one_state.
  - via_dispatcher.
    apply many_state.
  - via_dispatcher.
    apply one_state.
  - via_dispatcher.
    apply many_state.
Qed.

(** X9: a public call makes at most four HTTP requests: at most one login
    sequence, of at most three requests, and after it at most one request
    of its own. *)
Theorem public_call_requests c st :
  ∃ pre own,
    log (run E c st).2 = log st ++ pre ++ own ∧
    Forall (λ y, login_flag y = true) pre ∧
    logins pre ≤ 1 ∧ List.length pre ≤ 3 ∧
    Forall (λ y, login_flag y = false) own ∧ List.length own ≤ 1.
Proof.
  assert (Hnone : ∃ pre own : list exchange,
    log st = log st ++ pre ++ own ∧
    Forall (λ y, login_flag y = true) pre ∧
    logins pre ≤ 1 ∧ List.length pre ≤ 3 ∧
    Forall (λ y, login_flag y = false) own ∧ List.length own ≤ 1).
  { exists [], []. rewrite app_nil_r.
    split_and!; [done|by apply Forall_nil|unfold logins; simpl; lia|simpl; lia
                |by apply Forall_nil|simpl; lia]. }
  assert (Hdisp : ∀ u p, ∃ pre own : list exchange,
    log (_make_request E "GET" u Omitted p None false st).2
      = log st ++ pre ++ own ∧
    Forall (λ y, login_flag y = true) pre ∧
    logins pre ≤ 1 ∧ List.length pre ≤ 3 ∧
    Forall (λ y, login_flag y = false) own ∧ List.length own ≤ 1).
  { intros u p.
    destruct (_make_request_log "GET" u Omitted p None false st)
      as (pre & own & Hl & Hf & Hn & Hlen & Hown).
    exists pre, own. split_and!; [done..| |];
      destruct Hown as [->|(y & -> & Hy & _)];
      [by apply Forall_nil|by apply Forall_singleton|simpl; lia|simpl; lia]. }
  destruct c as [| | | | | | | | |u0].
  1:{ simpl. unfold start, mbind, M_bind, bind, modify.
      destruct (_login E _) as [res st'] eqn:Hl.
      apply _login_log in Hl as (new & Hl & Hf & Hn & Hlen). simpl in Hl.
      exists new, []. rewrite app_nil_r.
      split_and!; [by destruct res as [[]|]|done|lia|done
                  |by apply Forall_nil|simpl; lia]. }
  9:{ exists [], [Exchange false (Request "GET" (Str u0) ∅ None None)
                  (net E (log st) (Request "GET" (Str u0) ∅ None None))].
      simpl. unfold get_formats, mbind, M_bind, bind, httpx_request.
      destruct (net E (log st) _); simpl;
        (split_and!; [done|by apply Forall_nil|unfold logins; simpl; lia
                     |simpl; lia|by apply Forall_singleton|simpl; lia]). }
  all: match goal with
       | |- context [run _ ?c0 ?s0] =>
           destruct (run_state c0 s0) as [->|(u & p & ->)];
             [done|done|exact Hnone|apply Hdisp]
       end.
Qed.

End Requests.

(** ** What the methods return *)

Section Returns.

Context (E : env).

Implicit Types (st : state) (c : call) (b body : gmap string json).

(** A call of the dispatcher that returns has just got its answer. *)
Lemma returns_last m u h p d login st b st' :
  _make_request E m u h p d login st = (Return b, st') →
  ∃ x r, last (log st') = Some x ∧ login_flag x = login ∧
         target (sent x) = u ∧ got x = Answers r ∧ json_body r = Some b.
Proof.
  intros H. apply returns_receives in H as (r & Hr & Hb).
  destruct Hr as (st0 & hs & st1 & _ & _ & _ & ->).
  eexists _, r. simpl. rewrite last_snoc. by split_and!.
Qed.

Local Ltac same_state Hfin :=
  let Hst := fresh "Hst" in
  lazymatch type of Hfin with
  | many ?E1 ?k ?raw ?r ?s = _ =>
      pose proof (many_state E1 k raw r s) as Hst;
      rewrite Hfin in Hst; simpl in Hst; subst
  | one ?E1 ?k ?raw ?r ?s = _ =>
      pose proof (one_state E1 k raw r s) as Hst;
      rewrite Hfin in Hst; simpl in Hst; subst
  end.

Local Ltac through_dispatcher :=
  lazymatch goal with
  | |- context [_make_request ?E0 "GET" ?u Omitted ?p None false ?st] =>
      let Hm := fresh "Hm" in
      let Hfin := fresh "Hfin" in
      let b := fresh "b" in
      destruct (_make_request E0 "GET" u Omitted p None false st)
        as [[b|?] ?] eqn:Hm; [|done];
      intros Hfin; exists u, p, b; same_state Hfin; by split
  end.

Local Ltac pure_prelude H :=
  match type of H with
  | context [cms_get ?k ?st] =>
      let Hb := fresh "Hb" in let Hs0 := fresh "Hs0" in
      destruct (cms_get k st) as [[?bucket|?] ?s0] eqn:Hb;
      pose proof (cms_get_state k st) as Hs0; rewrite Hb in Hs0;
      simpl in Hs0; subst; [|done]
  | context [signed_params ?st0 ?extra ?st] =>
      let Hp := fresh "Hp" in let Hs0 := fresh "Hs0" in
      destruct (signed_params st0 extra st) as [[?ps|?] ?s0] eqn:Hp;
      pose proof (signed_params_state st0 extra st) as Hs0; rewrite Hp in Hs0;
      simpl in Hs0; subst; [|done]
  end.

(** A method that returns has made one call of the dispatcher that
    returned, and made its result of the body. *)
Lemma run_returns c st v st' :
  c ≠ Start → (∀ url, c ≠ GetFormats url) →
  run E c st = (Return v, st') →
  ∃ u p b,
    _make_request E "GET" u Omitted p None false st = (Return b, st') ∧
    finish E c b st' = (Return v, st').
Proof.
  intros Hs Hf.
  destruct c as [|query n raw|series_id raw|series_id raw|season_id raw
                |href raw|series_id n raw|n raw|sort_by n raw|u0];
    [done| | | | | | | | |by destruct (Hf u0)]; simpl;
    unfold search, get_series, get_seasons, get_episodes, get_streams,
      get_similar, news_feed, browse, mbind, M_bind, bind, get_state.
  - through_dispatcher.
  - intros H. pure_prelude H. pure_prelude H. revert H. through_dispatcher.
  - intros H. pure_prelude H. pure_prelude H. revert H. through_dispatcher.
  - intros H. pure_prelude H. pure_prelude H. revert H. through_dispatcher.
  - destruct (search_stream_id href) as [stream_id|]; [|done].
    intros H. pure_prelude H. pure_prelude H. revert H. through_dispatcher.
  - through_dispatcher.
  - through_dispatcher.
  - through_dispatcher.
Qed.

Lemma finish_raw c b st :
  raw_json_of c = Some true →
  finish E c b st =
    (Return (Raw (match c with GetStreams _ _ => fixup E b | _ => b end)), st).
Proof. destruct c; try done; simpl; by intros [= ->]. Qed.

(** X10: with [raw_json=True] every method that returns, returns the
    decoded body of the answer to its own request, the last of the
    history, as it is; [get_streams] alone returns it after [fixup]. *)
Theorem raw_json_returns_body c st v st' :
  raw_json_of c = Some true →
  run E c st = (Return v, st') →
  ∃ x r body,
    last (log st') = Some x ∧ login_flag x = false ∧
    got x = Answers r ∧ json_body r = Some body ∧
    v = Raw (match c with GetStreams _ _ => fixup E body | _ => body end).
Proof.
  intros Hraw Hrun.
  apply run_returns in Hrun as (u & p & b & Hm & Hfin);
    [|by intros ->|by intros url ->].
  rewrite (finish_raw _ _ _ Hraw) in Hfin. injection Hfin as <-.
  apply returns_last in Hm as (x & r & Hl & Hf & _ & Hg & Hb).
  by exists x, r, b.
Qed.

Lemma spread_all_built k l :
  ∀ es, spread_all E k l = Return es → Forall2 (built E k) l es.
Proof.
  induction l as [|item l IH]; intros es; simpl.
  - intros [= <-]. constructor.
  - unfold spread at 1. destruct item as [| | | | |o]; try done.
    destruct (construct E k o) as [e|] eqn:Hc; [|done]. simpl.
    destruct (spread_all E k l) as [es'|]; [|done]. simpl.
    intros [= <-]. constructor; [by exists o|by apply IH].
Qed.

Lemma finish_items c k b st :
  item_kind c = Some k → raw_json_of c = Some false →
  finish E c b st =
    lift (result_bind (comprehension E k (dict_get "items" b))
            (λ l, Return (Many l))) st.
Proof.
  destruct c; try done; simpl; intros [= <-] [= ->]; done.
Qed.

(** X11: the methods that return a list ([search], [get_seasons],
    [get_episodes], [get_similar], [browse]), called with
    [raw_json=False]: when one returns, the body of the answer to its
    request has an [items] entry, and for a list there the result has one
    entity for each item, in order, each built from that item, a mapping;
    on a body without [items], what the method makes of the body is a
    [TypeError]. *)
Theorem typed_list_results c k st :
  item_kind c = Some k → raw_json_of c = Some false →
  (∀ v st', run E c st = (Return v, st') →
     ∃ x r body es,
       last (log st') = Some x ∧ login_flag x = false ∧
       got x = Answers r ∧ json_body r = Some body ∧
       v = Many es ∧ is_Some (body !! "items") ∧
       ∀ l, body !! "items" = Some (JArr l) → Forall2 (built E k) l es) ∧
  (∀ body s, body !! "items" = None →
     finish E c body s = (Raise TypeError, s)).
Proof.
  intros Hk Hraw. split.
  - intros v st' Hrun.
    apply run_returns in Hrun as (u & p & b & Hm & Hfin);
      [|by intros ->|by intros url ->].
    rewrite (finish_items _ _ _ _ Hk Hraw) in Hfin. unfold lift in Hfin.
    destruct (comprehension E k (dict_get "items" b)) as [es|] eqn:Hc; [|done].
    simpl in Hfin. injection Hfin as <-.
    apply returns_last in Hm as (x & r & Hl & Hf & _ & Hg & Hb).
    exists x, r, b, es. split_and!; [done..| |].
    + unfold dict_get in Hc. by destruct (b !! "items").
    + intros l Hi. unfold dict_get in Hc. rewrite Hi in Hc. simpl in Hc.
      by apply spread_all_built.
  - intros body s Hn. rewrite (finish_items _ _ _ _ Hk Hraw).
    unfold lift, dict_get. by rewrite Hn.
Qed.

End Returns.

(** ** The content requests *)

Section Content.

Context (E : env).

Implicit Types (st : state).

Lemma cms_get_value k st :
  (config st !! "cms" = None ∨ ∃ o, config st !! "cms" = Some (JObj o)) →
  cms_get k st = (Return (cms_value k st), st).
Proof.
  unfold cms_get, cms_value. by intros [->|[o ->]].
Qed.

Lemma signed_params_value st0 extra st :
  (config st !! "cms" = None ∨ ∃ o, config st !! "cms" = Some (JObj o)) →
  locale st0 = locale st →
  signed_params st0 extra st = (Return (signed st extra), st).
Proof.
  intros Hc Hl. unfold signed_params, mbind, M_bind, bind.
  rewrite !(cms_get_value _ _ Hc). unfold signed. by rewrite Hl.
Qed.

Lemma cms_get_not_mapping k st v :
  config st !! "cms" = Some v → (∀ o, v ≠ JObj o) →
  cms_get k st = (Raise AttributeError, st).
Proof.
  intros Hc Hv. unfold cms_get. rewrite Hc.
  destruct v as [| | | | |o]; try done. by destruct (Hv o).
Qed.

(** X6: the content methods read the bucket and the three signing
    parameters off the [cms] block before they call the dispatcher, with
    [None] for each one the block lacks; with no [cms] block at all (as
    after a login that failed at its index step) the request still goes
    out, with [None] for all four; with a [cms] entry that is no mapping
    the method raises [AttributeError] and nothing is requested. *)
Theorem content_requests st :
  ((config st !! "cms" = None ∨ ∃ o, config st !! "cms" = Some (JObj o)) →
   (∀ id raw,
      get_series E id raw st =
        (_make_request E "GET"
           (Format SERIES_ENDPOINT [cms_value "bucket" st; JStr id]) Omitted
           (Some (signed st ∅)) None false ≫= one E Series raw) st) ∧
   (∀ id raw,
      get_seasons E id raw st =
        (_make_request E "GET"
           (Format SEASONS_ENDPOINT [cms_value "bucket" st]) Omitted
           (Some (signed st {[ "series_id" := JStr id ]})) None false
         ≫= many E Season raw) st) ∧
   (∀ id raw,
      get_episodes E id raw st =
        (_make_request E "GET"
           (Format EPISODES_ENDPOINT [cms_value "bucket" st]) Omitted
           (Some (signed st {[ "season_id" := JStr id ]})) None false
         ≫= many E Episode raw) st) ∧
   (∀ href id raw, search_stream_id href = Some id →
      get_streams E href raw st =
        (_make_request E "GET"
           (Format STREAMS_ENDPOINT [cms_value "bucket" st; JStr id]) Omitted
           (Some (signed st ∅)) None false
         ≫= λ r, one E StreamsInfo raw (fixup E r)) st)) ∧
  (config st !! "cms" = None →
   ∀ k, cms_value k st = JNull) ∧
  (∀ v, config st !! "cms" = Some v → (∀ o, v ≠ JObj o) →
   (∀ id raw, get_series E id raw st = (Raise AttributeError, st)) ∧
   (∀ id raw, get_seasons E id raw st = (Raise AttributeError, st)) ∧
   (∀ id raw, get_episodes E id raw st = (Raise AttributeError, st)) ∧
   (∀ href id raw, search_stream_id href = Some id →
      get_streams E href raw st = (Raise AttributeError, st))).
Proof.
  split_and!.
  - intros Hc. split_and!; intros;
      unfold get_series, get_seasons, get_episodes, get_streams;
      unfold mbind at 1 2 3, M_bind at 1 2 3, bind at 1 2 3, get_state;
      [| | |match goal with H : search_stream_id _ = _ |- _ => rewrite H end;
            unfold mbind at 1 2, M_bind at 1 2, bind at 1 2];
      by rewrite (cms_get_value _ _ Hc), (signed_params_value _ _ _ Hc).
  - intros Hc k. unfold cms_value. by rewrite Hc.
  - intros v Hc Hv. split_and!; intros;
      unfold get_series, get_seasons, get_episodes, get_streams,
        mbind, M_bind, bind, get_state;
      [| | |match goal with H : search_stream_id _ = _ |- _ => rewrite H end];
      by rewrite (cms_get_not_mapping _ _ _ Hc Hv).
Qed.

End Content.

(** ** More theorems at work *)

Section MoreInstances.

Import Example Sample.

Lemma login_token_request_witness :
  headers (token_request (world 0 service) fresh) !! "Authorization"
    = Some [Lit (AUTHORIZATION (world 0 service))].
Proof.
  destruct (login_token_request (world 0 service) fresh)
    as (_ & _ & _ & _ & H & _).
  apply H. reflexivity.
Defined.

Lemma login_index_request_witness :
  ∃ x2 rest,
    log (_login (world 0 service) fresh).2 =
      log fresh ++
      Exchange true (token_request (world 0 service) fresh)
        (Answers (Response 200 "(json)" (Some token_body))) :: x2 :: rest ∧
    login_flag x2 = true ∧
    method (sent x2) = "GET" ∧ target (sent x2) = Const INDEX_ENDPOINT ∧
    headers (sent x2) !! "Authorization" = Some (bearer token_body) ∧
    (∀ k, k ≠ "Authorization" →
       headers (sent x2) !! k =
         match api_headers fresh !! k with
         | Some v => Some v
         | None => default_headers fresh !! k
         end) ∧
    api_headers (_login (world 0 service) fresh).2 !! "Authorization"
      = Some (bearer token_body).
Proof.
  apply (login_index_request (world 0 service) fresh
           (Response 200 "(json)" (Some token_body)) token_body);
    vm_compute; reflexivity.
Defined.

Lemma start_invalid_credentials_witness :
  start (world 0 service_denied) fresh =
    (Raise (CrunchyrollError
       [Lit "["; Int 401; Lit "] Invalid login credentials."]),
     set_log (log fresh ++
                [Exchange true (token_request (world 0 service_denied) fresh)
                   (Answers (Response 401 "(json)" (Some denied_body)))])
       (set_stdout (stdout fresh ++ [banner (world 0 service_denied)]) fresh)).
Proof.
  apply (start_invalid_credentials (world 0 service_denied) fresh
           (Response 401 "(json)" (Some denied_body)) denied_body);
    vm_compute; reflexivity.
Defined.

Lemma dispatcher_returns_iff_witness :
  _make_request (world 0 service) "GET" (Const SEARCH_ENDPOINT) Omitted
    None None true fresh =
  (Return items_body,
   (_make_request (world 0 service) "GET" (Const SEARCH_ENDPOINT) Omitted
      None None true fresh).2).
Proof.
  apply (dispatcher_returns_iff (world 0 service) "GET"
           (Const SEARCH_ENDPOINT) Omitted None None true fresh
           (Response 200 "(json)" (Some items_body))).
  - exists fresh, (dict_update (default_headers fresh) (api_headers fresh)),
      (set_default_headers
         (dict_update (default_headers fresh) (api_headers fresh)) fresh).
    split_and!; vm_compute; reflexivity.
  - split_and!; [reflexivity|reflexivity|reflexivity|right; left; reflexivity].
Defined.

Lemma expires_unreadable_witness :
  _make_request (world 0 service) "GET" (Const SEARCH_ENDPOINT) Omitted
    search_params None false undated =
  (Raise (KeyError "expires"), undated).
Proof.
  destruct (expires_unreadable (world 0 service) "GET"
              (Const SEARCH_ENDPOINT) Omitted search_params None undated
              (JObj ∅)) as (_ & H & _); [reflexivity|].
  by apply (H ∅).
Defined.

Lemma refreshed_token_is_sent_witness :
  ∃ y, last (log (_make_request (world 1500 service) "GET"
                    (Const SEARCH_ENDPOINT) Omitted search_params None false
                    (started "1000")).2) = Some y ∧
       login_flag y = false ∧ target (sent y) = Const SEARCH_ENDPOINT ∧
       headers (sent y) !! "Authorization" = Some (bearer token_body).
Proof.
  apply (refreshed_token_is_sent (world 1500 service) "GET"
           (Const SEARCH_ENDPOINT) search_params None (started "1000")
           (cms_block "1000") (JStr "1000") 1000
           (Response 200 "(json)" (Some token_body)) token_body);
    vm_compute; reflexivity.
Defined.

Lemma content_requests_witness :
  get_series (world 0 service) "G6" true partial =
    (_make_request (world 0 service) "GET"
       (Format SERIES_ENDPOINT [cms_value "bucket" partial; JStr "G6"])
       Omitted (Some (signed partial ∅)) None false
     ≫= one (world 0 service) Series true) partial.
Proof.
  destruct (content_requests (world 0 service) partial) as (H & _).
  destruct H as (H & _); [left; reflexivity|]. apply H.
Defined.

Lemma session_changes_only_by_login_witness :
  config (run_all (world 0 service)
            [Search "q" 6 true; GetFormats "u"] (started "2000"))
    = config (started "2000") ∧
  api_headers (run_all (world 0 service)
                 [Search "q" 6 true; GetFormats "u"] (started "2000"))
    = api_headers (started "2000").
Proof.
  apply (session_changes_only_by_login (world 0 service)
           [Search "q" 6 true; GetFormats "u"] (started "2000")
           (log (run_all (world 0 service)
                   [Search "q" 6 true; GetFormats "u"] (started "2000"))));
    [reflexivity|vm_compute; reflexivity].
Defined.

Lemma raw_json_returns_body_witness :
  ∃ x r body,
    last (log (run (world 0 service) (GetStreams href true)
                 (started "2000")).2) = Some x ∧
    login_flag x = false ∧
    got x = Answers r ∧ json_body r = Some body ∧
    Raw items_body = Raw (fixup (world 0 service) body).
Proof.
  apply (raw_json_returns_body (world 0 service) (GetStreams href true)
           (started "2000") (Raw items_body)); [reflexivity|].
  vm_compute; reflexivity.
Defined.

Lemma typed_list_results_witness :
  finish (world 0 service) (Search "q" 6 false) ∅ fresh
    = (Raise TypeError, fresh).
Proof.
  destruct (typed_list_results (world 0 service) (Search "q" 6 false)
              Collection fresh) as (_ & H); [reflexivity..|].
  apply H. reflexivity.
Defined.

Lemma search_stream_id_spec_witness :
  is_Some (search_stream_id href).
Proof.
  destruct (search_stream_id_spec (world 0 service) href) as (_ & _ & H).
  apply (H "/cms/v2/US/M2/crunchyroll/" "GX9UQ5V8E" "?locale=en-US");
    [reflexivity|discriminate|reflexivity].
Defined.

Lemma get_formats_returns_witness :
  ∃ r,
    net (world 0 service) (log fresh) (Request "GET" (Str "u") ∅ None None)
      = Answers r ∧
    Forall2 (built_from (Py.split_lines (text r)))
      (descriptors (world 0 service) 1 (Py.split_lines (text r)))
      [ MkPlaylistItem line2 831200 640 360 (Some "23.976") (Some "avc1,mp4a");
        MkPlaylistItem line4 2145000 1920 1080 (Some "23.976") (Some "avc1,mp4a") ].
Proof.
  apply (get_formats_returns (world 0 service) "u" fresh).
  vm_compute; reflexivity.
Defined.

Lemma get_formats_no_descriptor_witness :
  (get_formats (world 0 service_plain) "u" fresh).1 = Return (Formats []).
Proof.
  apply (get_formats_no_descriptor (world 0 service_plain) "u" fresh
           (Response 200 "#EXTM3U" None)); [reflexivity|].
  apply Forall_singleton. reflexivity.
Defined.

(** A no-break space before a descriptor on the only line: [strip]
    removes it, the line matches, and the read past the end raises. *)
Example get_formats_nbsp_descriptor :
  formats_of_text (world 0 service) (String "160" line1) = Raise IndexError ∧
  formats_of_text (world 0 service_plain) (String "160" EmptyString) = Return [].
Proof. by vm_compute. Qed.

Lemma get_formats_last_descriptor_witness :
  ∃ e, (get_formats (world 0 service) "last" fresh).1 = Raise e ∧
       (e = IndexError ∨ e = TypeError ∨ e = ValueError).
Proof.
  apply (get_formats_last_descriptor (world 0 service) "last" fresh
           (Response 200 line1 None) line1
           (Groups (Some "831200") (Some "640") (Some "360")
                   (Some "23.976") (Some "avc1,mp4a")));
    vm_compute; reflexivity.
Defined.

End MoreInstances.
